(** * FaceFindrLite: a shallow embedding of [main.py]

    The terminal viewport controller of [main.py]: a buffer of mouse deltas
    filled by an event-tap callback, a render loop that drains it, moves the
    camera and draws a toroidally wrapped window of the scene, and the
    start-up code that launches the listener thread and the renderer.

    Python values are modelled as follows: [int] as [Z]; [float] as an IEEE
    754 binary64 number, with the operations of the Standard Library's
    reference specification [SpecFloat] (round to nearest, ties to even);
    a scene row as a [list ascii]; a Python exception as an [Err] of the
    small error monad [res]. *)

From Stdlib Require Import ZArith QArith Qround List String Ascii Lia.
From Stdlib Require Import Floats.SpecFloat.
Import ListNotations.

Open Scope Z_scope.

(** ** Python primitives *)

Module Py.

(** Exceptions raised by the code. *)
Inductive exn : Type :=
| CursesError
| IndexError
| ZeroDivisionError
| OverflowError
| ValueError
| Exception (msg : string).

(** Computations that may raise. *)
Inductive res (A : Type) : Type :=
| Ok (a : A)
| Err (e : exn).
Arguments Ok {A} a.
Arguments Err {A} e.

Definition bind {A B : Type} (m : res A) (k : A -> res B) : res B :=
  match m with
  | Ok a => k a
  | Err e => Err e
  end.

Notation "'let!' x := m 'in' k" := (bind m (fun x => k))
  (at level 200, x name, m at level 100, k at level 200).

(** [int(x)] on a finite float, given by its exact value: truncation toward
    zero. *)
Definition py_int (q : Q) : Z :=
  if Qle_bool 0 q then Qfloor q else Qceiling q.

(** [a % b]: Python's modulo takes the sign of the divisor (floor modulo)
    and raises [ZeroDivisionError] on a zero divisor. *)
Definition py_mod (a b : Z) : res Z :=
  if b =? 0 then Err ZeroDivisionError else Ok (a mod b).

(** Index normalisation of a slice bound: negative bounds count from the
    end, and bounds are clamped to [[0, len]]. *)
Definition slice_bound (i n : Z) : Z :=
  if i <? 0 then Z.max 0 (i + n) else Z.min i n.

(** [l[a:b]]. *)
Definition slice {A : Type} (l : list A) (a b : Z) : list A :=
  let n := Z.of_nat (List.length l) in
  let a' := slice_bound a n in
  let b' := slice_bound b n in
  firstn (Z.to_nat (b' - a')) (skipn (Z.to_nat a') l).

(** [l[i]]: a negative index counts from the end. *)
Definition getitem {A : Type} (l : list A) (i : Z) : res A :=
  let j := if i <? 0 then i + Z.of_nat (List.length l) else i in
  if j <? 0 then Err IndexError
  else match nth_error l (Z.to_nat j) with
       | Some x => Ok x
       | None => Err IndexError
       end.

(** [l[i] = x] on a list. *)
Definition setitem {A : Type} (l : list A) (i : Z) (x : A) : res (list A) :=
  let j := if i <? 0 then i + Z.of_nat (List.length l) else i in
  if (j <? 0) || (Z.of_nat (List.length l) <=? j) then Err IndexError
  else Ok (firstn (Z.to_nat j) l ++ x :: skipn (S (Z.to_nat j)) l).

(** [range(n)]. *)
Definition range (n : Z) : list Z := map Z.of_nat (seq 0 (Z.to_nat n)).

(** Python's [float]: binary64, 53 bits of precision, maximal exponent 1024. *)
Definition float : Type := spec_float.

Definition float_add (x y : float) : float := SFadd 53 1024 x y.
Definition float_sub (x y : float) : float := SFsub 53 1024 x y.
Definition float_mul (x y : float) : float := SFmul 53 1024 x y.
Definition float_div (x y : float) : float := SFdiv 53 1024 x y.

(** The float nearest to the integer [n] (an infinity beyond the range). *)
Definition float_of_Z (n : Z) : float := binary_normalize 53 1024 n 0 false.

(** [float(n)] for an [int] [n], as done when an [int] meets a [float] in
    an arithmetic operation: [OverflowError] when [n] is too large. *)
Definition float_of_int (n : Z) : res float :=
  match float_of_Z n with
  | S754_infinity _ => Err OverflowError
  | f => Ok f
  end.

(** The exact value of a finite float (zeros are [0]). *)
Definition float_to_Q (f : float) : Q :=
  match f with
  | S754_finite s m e =>
      if 0 <=? e then inject_Z (cond_Zopp s (Zpos m) * 2 ^ e)
      else cond_Zopp s (Zpos m) # Z.to_pos (2 ^ (- e))
  | _ => 0
  end.

End Py.

Import Py.

(** ** Constants (lines 7-9) *)

Definition SCENE_WIDTH_MULTIPLIER : Z := 4.
Definition SCENE_HEIGHT_MULTIPLIER : Z := 3.
(** [SCROLL_SPEED = 0.2]: the literal denotes the float nearest to 1/5,
    that is 7205759403792794 * 2^-55 = 3602879701896397 / 2^54. *)
Definition SCROLL_SPEED : float := S754_finite false 7205759403792794 (-55).

(** ** Window extraction (lines 114-120)

    One row of the visible window: [scene_row] is [scene[actual_y]],
    [visible_start_x] the anchor and [max_x] the viewport width. *)

Definition extract_line (scene_row : list ascii) (scene_width visible_start_x max_x : Z)
  : list ascii :=
  let visible_end_x := visible_start_x + max_x in
  if visible_end_x <? scene_width then slice scene_row visible_start_x visible_end_x
  else
    let part1 := slice scene_row visible_start_x scene_width in
    let part2 := slice scene_row 0 (visible_end_x - scene_width) in
    part1 ++ part2.

(** The toroidal window of the spec: [w] cells read circularly from [start]. *)
Definition circular_window (scene_row : list ascii) (W start w : Z) : list ascii :=
  map (fun i : nat => nth (Z.to_nat ((start + Z.of_nat i) mod W)) scene_row " "%char)
      (seq 0 (Z.to_nat w)).

(** ** Scene generation (lines 71-79) *)

Fixpoint mark_row (row : list ascii) (cols : list Z) : res (list ascii) :=
  match cols with
  | [] => Ok row
  | i :: t => let! r := setitem row i "#"%char in mark_row r t
  end.

(** [scene[10][i] = "#"] for [i] in [range(5, 15)]; every row of the
    comprehension is a distinct list, so only row 10 changes. *)
Definition generate_scene (width height : Z) : res (list (list ascii)) :=
  let scene := repeat (repeat " "%char (Z.to_nat width)) (Z.to_nat height) in
  let! row := getitem scene 10 in
  let! row' := mark_row row (map (fun k => 5 + k) (range 10)) in
  setitem scene 10 row'.

(** What [render_scene] fixes before its loop (lines 89-94). *)
Record env : Type := mkEnv {
  max_y : Z;
  max_x : Z;
  scene_width : Z;
  scene_height : Z;
  scene : list (list ascii)
}.

Definition make_env (my mx : Z) : res env :=
  let w := mx * SCENE_WIDTH_MULTIPLIER in
  let h := my * SCENE_HEIGHT_MULTIPLIER in
  let! sc := generate_scene w h in
  Ok (mkEnv my mx w h sc).

(** ** Shared state (lines 11-14)

    [mouse_delta_buffer] is a global name bound to a two-element list.  The
    render loop rebinds it to a fresh list, while the callback mutates the
    list the name denotes when it runs; the store of lists is kept explicit,
    with [buf] the list the global currently points to.  The offsets start
    as the [int] [0]; the first update turns them into floats, and
    [0 - x] and [0 + x] for a float [x] are computed as [0.0 - x] and
    [0.0 + x], so they are modelled as the float [+0.0] from the start. *)
Record state : Type := mkState {
  scene_offset : float;
  vertical_offset : float;
  heap : list (Z * Z);
  buf : nat
}.

Definition initial_state : state := mkState (S754_zero false) (S754_zero false) [(0, 0)] 0.

Fixpoint heap_set (h : list (Z * Z)) (p : nat) (v : Z * Z) : list (Z * Z) :=
  match h, p with
  | [], _ => []
  | _ :: t, O => v :: t
  | x :: t, S p' => x :: heap_set t p' v
  end.

Definition heap_get (h : list (Z * Z)) (p : nat) : Z * Z := nth p h (0, 0).

(** The current value of the global [mouse_delta_buffer]. *)
Definition buffer (st : state) : Z * Z := heap_get (heap st) (buf st).

(** ** The event-tap callback (lines 26-41) *)

Inductive event_type : Type := kCGEventMouseMoved | OtherEvent.

Definition mouse_event_callback (ty : event_type) (dx dy : Z) (st : state) : state :=
  match ty with
  | kCGEventMouseMoved =>
      let '(x, y) := buffer st in
      mkState (scene_offset st) (vertical_offset st)
              (heap_set (heap st) (buf st) (x + dx, y - dy)) (buf st)
  | OtherEvent => st
  end.

(** ** Draining the buffer (lines 101-102), two separate statements *)

(** [dx, dy = mouse_delta_buffer[0], mouse_delta_buffer[1]] *)
Definition drain_read (st : state) : Z * Z := buffer st.

(** [mouse_delta_buffer = [0, 0]]: a fresh list, the old one is left as is. *)
Definition drain_reset (st : state) : state :=
  mkState (scene_offset st) (vertical_offset st)
          (heap st ++ [(0, 0)]) (List.length (heap st)).

(** ** Camera update and anchor (lines 105-110) *)

(** [d * SCROLL_SPEED] for an [int] [d]: [d] is converted to a float, then
    the product is rounded. *)
Definition scaled (d : Z) : res float :=
  let! f := float_of_int d in Ok (float_mul f SCROLL_SPEED).

(** [scene_offset -= dx * SCROLL_SPEED] then
    [vertical_offset += dy * SCROLL_SPEED]. *)
Definition advance (dx dy : Z) (st : state) : res state :=
  let! sdx := scaled dx in
  let so := float_sub (scene_offset st) sdx in
  let! sdy := scaled dy in
  let vo := float_add (vertical_offset st) sdy in
  Ok (mkState so vo (heap st) (buf st)).

(** [int(offset) % size] for an offset of exact value [offset]. *)
Definition visible_start (offset : Q) (size : Z) : res Z := py_mod (py_int offset) size.

(** [int(offset) % size] on a float: [int] raises [OverflowError] on an
    infinity and [ValueError] on a NaN. *)
Definition anchor (offset : float) (size : Z) : res Z :=
  match offset with
  | S754_infinity _ => Err OverflowError
  | S754_nan => Err ValueError
  | _ => visible_start (float_to_Q offset) size
  end.

(** Lines 101-110: drain the buffer, move the camera, compute the anchors. *)
Definition camera (e : env) (st : state) : res (state * (Z * Z)) :=
  let '(dx, dy) := drain_read st in
  let! st1 := advance dx dy (drain_reset st) in
  let! sx := anchor (scene_offset st1) (scene_width e) in
  let! sy := anchor (vertical_offset st1) (scene_height e) in
  Ok (st1, (sx, sy)).

(** ** Display (curses) *)

Inductive cmd : Type :=
| InitScr
| NoEcho
| CBreak
| Keypad (flag : bool)
| StartColor
| CursSet (visibility : Z)
| NoDelay (flag : bool)
| Clear
| AddStr (row col : Z) (s : list ascii)
| AddCh (row col : Z) (ch : ascii)
| HideCursor
| Refresh
| Echo
| NoCBreak
| EndWin.

(** A terminal: [true] when the curses call raises [curses.error]. *)
Definition display : Type := cmd -> bool.

(** A trace records each call made and whether it raised. *)
Definition trace : Type := list (cmd * bool).

Definition unguarded (disp : display) (c : cmd) : res trace :=
  if disp c then Err CursesError else Ok [(c, false)].

(** [try: ... except curses.error: pass] *)
Definition guarded (disp : display) (c : cmd) : trace := [(c, disp c)].

Definition is_write (c : cmd) : bool :=
  match c with AddStr _ _ _ | AddCh _ _ _ => true | _ => false end.

(** ** One iteration of the render loop (lines 97-140) *)

(** Body of [for row in range(max_y)] (lines 113-126). *)
Definition render_row (disp : display) (e : env) (visible_start_x visible_start_y row : Z)
  : res trace :=
  let! actual_y := py_mod (visible_start_y + row) (scene_height e) in
  let! srow := getitem (scene e) actual_y in
  let line := extract_line srow (scene_width e) visible_start_x (max_x e) in
  Ok (guarded disp (AddStr row 0 (slice line 0 (max_x e)))).

Fixpoint render_rows (disp : display) (e : env) (sx sy : Z) (rows : list Z) : res trace :=
  match rows with
  | [] => Ok []
  | r :: t =>
      let! a := render_row disp e sx sy r in
      let! b := render_rows disp e sx sy t in
      Ok (a ++ b)
  end.

Definition crosshair (e : env) : cmd := AddCh (max_y e / 2) (max_x e / 2) "+"%char.

(** Line 137, [CG.CGDisplayHideCursor], returns an error code and never
    raises. *)
Definition frame (disp : display) (e : env) (st : state) : res (state * trace) :=
  let! t0 := unguarded disp Clear in
  let! c := camera e st in
  let '(st1, (sx, sy)) := c in
  let! t1 := render_rows disp e sx sy (range (max_y e)) in
  let t2 := guarded disp (crosshair e) in
  let t3 := [(HideCursor, false)] in
  let! t4 := unguarded disp Refresh in
  Ok (st1, t0 ++ t1 ++ t2 ++ t3 ++ t4).

(** The loop, observed over as many frames as [inputs] has entries: before
    frame [k] the listener (when it is running) delivers the mouse moves
    of the [k]-th entry. *)
Definition deliver (listening : bool) (moves : list (Z * Z)) (st : state) : state :=
  if listening
  then fold_left (fun s '(dx, dy) => mouse_event_callback kCGEventMouseMoved dx dy s) moves st
  else st.

Fixpoint run_frames (disp : display) (e : env) (listening : bool)
         (inputs : list (list (Z * Z))) (st : state) : res state :=
  match inputs with
  | [] => Ok st
  | m :: t =>
      let! r := frame disp e (deliver listening m st) in
      run_frames disp e listening t (fst r)
  end.

(** ** Start-up (lines 44-68, 82-94 and 150-159) *)

(** [start_mouse_listener]: [tap_created] is whether [CGEventTapCreate]
    returned a tap.  With a tap the thread blocks in [CFRunLoopRun]. *)
Definition start_mouse_listener (tap_created : bool) : res unit :=
  if tap_created then Ok tt else Err (Exception "Unable to create event tap.").

Inductive thread_status : Type :=
| ThreadRunning
| ThreadDied (e : exn).

(** [threading.Thread(...).start()]: an exception ends that thread only;
    [threading.excepthook] reports it on stderr. *)
Definition spawn (r : res unit) : thread_status :=
  match r with
  | Ok _ => ThreadRunning
  | Err e => ThreadDied e
  end.

Definition excepthook_output (t : thread_status) : list string :=
  match t with
  | ThreadDied (Exception m) => [m]
  | _ => []
  end.

(** [render_scene] (lines 82-140) on a terminal of [my] rows and [mx]
    columns: [curs_set(0)] and [nodelay(True)] (lines 85-86), outside any
    [try], then the scene (lines 89-94), then the loop. *)
Definition render_scene (disp : display) (my mx : Z) (listening : bool)
           (inputs : list (list (Z * Z))) : res state :=
  let! _ := unguarded disp (CursSet 0) in
  let! _ := unguarded disp (NoDelay true) in
  let! e := make_env my mx in
  run_frames disp e listening inputs initial_state.

(** [curses.wrapper(render_scene)]: [initscr()], [noecho()], [cbreak()],
    [keypad(1)], then [start_color()] inside a bare [try]; when
    [render_scene] raises, the [finally] clause runs [keypad(0)], [echo()],
    [nocbreak()] and [endwin()] before the exception propagates (an error
    there replaces it). *)
Definition wrapper (disp : display) (my mx : Z) (listening : bool)
           (inputs : list (list (Z * Z))) : res state :=
  let! _ := unguarded disp InitScr in
  let r := (let! _ := unguarded disp NoEcho in
            let! _ := unguarded disp CBreak in
            let! _ := unguarded disp (Keypad true) in
            let _ := guarded disp StartColor in
            render_scene disp my mx listening inputs) in
  match r with
  | Ok st => Ok st
  | Err ex =>
      let! _ := unguarded disp (Keypad false) in
      let! _ := unguarded disp Echo in
      let! _ := unguarded disp NoCBreak in
      let! _ := unguarded disp EndWin in
      Err ex
  end.

Record process : Type := mkProcess {
  listener : thread_status;
  stderr : list string;
  main_thread : res state;
  aborted : bool
}.

(** The module body: the listener thread is started, then the main thread
    runs [curses.wrapper(render_scene)]; the loop never returns, so the
    process ends only when the main thread raises. *)
Definition program (disp : display) (tap_created : bool) (my mx : Z)
           (inputs : list (list (Z * Z))) : process :=
  let l := spawn (start_mouse_listener tap_created) in
  let listening := match l with ThreadRunning => true | ThreadDied _ => false end in
  let m := wrapper disp my mx listening inputs in
  mkProcess l (excepthook_output l) m
            (match m with Ok _ => false | Err _ => true end).

(** ** Interleavings of the listener and the render thread

    A schedule is a list of indivisible steps of the two threads on the
    shared list.  Lines 36 and 37 of the callback each load the list the
    global names and read one element, then store the sum back into that
    same list; the interpreter may switch threads between the read and the
    store.  Line 101 reads the two elements one after the other, each
    through the global as it is at that read; line 102 rebinds the global
    to a fresh list. *)
Inductive sched_step : Type :=
| CbLoad (i : nat) (d : Z)   (* listener: reads [mouse_delta_buffer[i]]; [d] is to be added *)
| CbStore                    (* listener: stores the sum into the list it read *)
| ReadElem                   (* render thread, line 101: reads the next element *)
| ResetBuffer.               (* render thread, line 102 *)

(** The two lines of the callback for a move [(dx, dy)]:
    [mouse_delta_buffer[0] += dx] and [mouse_delta_buffer[1] -= dy]. *)
Definition callback_steps (dx dy : Z) : list sched_step :=
  [CbLoad 0 dx; CbStore; CbLoad 1 (- dy); CbStore].

(** Shared state; the listener's pending store (the list it read, the
    element and the sum); the elements read at line 101 and not yet
    consumed by line 102; the pairs drained so far. *)
Record sys : Type := mkSys {
  shared : state;
  cb_reg : option (nat * nat * Z);
  reads : list Z;
  drained : list (Z * Z)
}.

Definition pair_get (p : Z * Z) (i : nat) : Z :=
  match i with O => fst p | S _ => snd p end.

Definition pair_set (p : Z * Z) (i : nat) (v : Z) : Z * Z :=
  match i with O => (v, snd p) | S _ => (fst p, v) end.

Definition sys_step (s : sys) (a : sched_step) : sys :=
  let st := shared s in
  match a with
  | CbLoad i d =>
      match cb_reg s with
      | None =>
          mkSys st (Some (buf st, i, pair_get (heap_get (heap st) (buf st)) i + d))
                (reads s) (drained s)
      | Some _ => s
      end
  | CbStore =>
      match cb_reg s with
      | Some (l, i, v) =>
          mkSys (mkState (scene_offset st) (vertical_offset st)
                         (heap_set (heap st) l (pair_set (heap_get (heap st) l) i v)) (buf st))
                None (reads s) (drained s)
      | None => s
      end
  | ReadElem =>
      if (List.length (reads s) <? 2)%nat
      then mkSys st (cb_reg s) (reads s ++ [pair_get (buffer st) (List.length (reads s))])
                 (drained s)
      else s
  | ResetBuffer =>
      match reads s with
      | [x; y] => mkSys (drain_reset st) (cb_reg s) [] (drained s ++ [(x, y)])
      | _ => s
      end
  end.

Definition run_sched (s : sys) (sched : list sched_step) : sys := fold_left sys_step sched s.

Definition sys0 : sys := mkSys initial_state None [] [].

Definition sum_dx (l : list (Z * Z)) : Z := fold_right (fun p acc => fst p + acc) 0 l.

(** The horizontal motion the callbacks of a schedule add at line 36. *)
Fixpoint applied_dx (sched : list sched_step) : Z :=
  match sched with
  | [] => 0
  | CbLoad O d :: t => d + applied_dx t
  | _ :: t => applied_dx t
  end.

(** ** Observations on traces *)

(** Rows written by [addstr], in order. *)
Fixpoint written_rows (t : trace) : list Z :=
  match t with
  | [] => []
  | (AddStr r _ _, _) :: t' => r :: written_rows t'
  | _ :: t' => written_rows t'
  end.

(** Cells written by [addch], in order. *)
Fixpoint written_cells (t : trace) : list (Z * Z) :=
  match t with
  | [] => []
  | (AddCh r c _, _) :: t' => (r, c) :: written_cells t'
  | _ :: t' => written_cells t'
  end.

(** Text written by [addstr], in order. *)
Fixpoint written_lines (t : trace) : list (list ascii) :=
  match t with
  | [] => []
  | (AddStr _ _ s, _) :: t' => s :: written_lines t'
  | _ :: t' => written_lines t'
  end.


(** The environment [render_scene] builds: positive sizes, the scene
    dimensions of lines 90-91 and one scene row per scene line. *)
Definition wf_env (e : env) : Prop :=
  0 < max_x e /\ 0 < max_y e /\
  scene_width e = max_x e * SCENE_WIDTH_MULTIPLIER /\
  scene_height e = max_y e * SCENE_HEIGHT_MULTIPLIER /\
  List.length (scene e) = Z.to_nat (scene_height e).

(** The exceptions the float arithmetic of lines 105-110 can raise. *)
Definition arith_error (ex : exn) : Prop := ex = OverflowError \/ ex = ValueError.

(** Sums of the motion delivered by a list of mouse moves. *)
Definition moves_dx (m : list (Z * Z)) : Z := fold_right (fun p acc => fst p + acc) 0 m.
Definition moves_dy (m : list (Z * Z)) : Z := fold_right (fun p acc => snd p + acc) 0 m.

(** The store is well formed: the global names an allocated list. *)
Definition buf_valid (st : state) : Prop := (buf st < List.length (heap st))%nat.

(** The binary64 encoding of a positive integer [a < 2^53]: [dg a] binary
    digits, the mantissa [cm a] of 53 bits and the exponent [ce a]. *)
Definition dg (a : Z) : Z := Z.log2 a + 1.
Definition cm (a : Z) : Z := a * 2 ^ (53 - dg a).
Definition ce (a : Z) : Z := dg a - 53.

(** ** Concrete inputs *)

(** A ten-cell scene row. *)
Definition row10 : list ascii := list_ascii_of_string "0123456789".

(** A display on which no call raises. *)
Definition quiet_display : display := fun _ => false.

(** A display on which every write raises (a terminal too small to draw). *)
Definition failing_display : display := is_write.

(** The environment of a 4x4 terminal and of an 80x24 terminal. *)
Definition env_of (r : res env) : env :=
  match r with Ok e => e | Err _ => mkEnv 0 0 0 0 [] end.
Definition env4 : env := env_of (make_env 4 4).
Definition env80 : env := env_of (make_env 24 80).

(** A camera at [horizontal_offset = 4.5], [vertical_offset = 10.0]. *)
Definition cam45 : state :=
  mkState (float_div (float_of_Z 9) (float_of_Z 2)) (float_of_Z 10) [(0, 0)] 0.



(** A schedule in which a callback runs between lines 101 and 102, then
    a full drain follows. *)
Definition lost_sched : list sched_step :=
  [ReadElem; ReadElem] ++ callback_steps 5 0 ++ [ResetBuffer; ReadElem; ReadElem; ResetBuffer].

(** * Properties *)

(** ** Slices *)

Lemma slice_bound_in (i n : Z) : 0 <= i <= n -> slice_bound i n = i.
Proof. intros H. unfold slice_bound. destruct (Z.ltb_spec i 0); lia. Qed.

Lemma slice_in {A : Type} (l : list A) (a b : Z) :
  0 <= a <= b -> b <= Z.of_nat (List.length l) ->
  slice l a b = firstn (Z.to_nat (b - a)) (skipn (Z.to_nat a) l).
Proof.
  intros Hab Hb. unfold slice.
  rewrite !slice_bound_in by lia. reflexivity.
Qed.

Lemma length_slice_in {A : Type} (l : list A) (a b : Z) :
  0 <= a <= b -> b <= Z.of_nat (List.length l) ->
  List.length (slice l a b) = Z.to_nat (b - a).
Proof.
  intros Hab Hb. rewrite slice_in by lia.
  rewrite length_firstn, length_skipn. lia.
Qed.

Lemma nth_slice_in {A : Type} (l : list A) (a b : Z) (i : nat) (d : A) :
  0 <= a <= b -> b <= Z.of_nat (List.length l) -> (i < Z.to_nat (b - a))%nat ->
  nth i (slice l a b) d = nth (Z.to_nat a + i) l d.
Proof.
  intros Hab Hb Hi. rewrite slice_in by lia.
  rewrite nth_firstn. destruct (Nat.ltb_spec i (Z.to_nat (b - a))); [|lia].
  apply nth_skipn.
Qed.

Lemma slice_empty {A : Type} (l : list A) : slice l 0 0 = [].
Proof. rewrite slice_in by lia. reflexivity. Qed.

Lemma nth_map_seq {A : Type} (f : nat -> A) (n i : nat) (d : A) :
  (i < n)%nat -> nth i (map f (seq 0 n)) d = f i.
Proof.
  intros Hi. rewrite (nth_indep _ d (f 0%nat)) by (rewrite length_map, length_seq; exact Hi).
  rewrite map_nth, seq_nth by exact Hi. reflexivity.
Qed.

(** ** Window extraction *)

Section Window.

Variable srow : list ascii.
Variable W : Z.
Hypothesis Hrow : Z.of_nat (List.length srow) = W.

(** For an anchor in [[0, W)], the line is the circular window as long as
    it does not wrap more than once. *)
Lemma extract_line_circular (sx w : Z) :
  0 <= sx < W -> 0 <= w <= W ->
  extract_line srow W sx w = circular_window srow W sx w.
Proof.
  intros Hsx Hw. unfold extract_line, circular_window.
  destruct (Z.ltb_spec (sx + w) W) as [Hlt | Hge].
  - apply nth_ext with (d := " "%char) (d' := " "%char).
    + rewrite length_map, length_seq, length_slice_in by lia. f_equal. lia.
    + intros i Hi. rewrite length_slice_in in Hi by lia.
      rewrite nth_slice_in by lia.
      rewrite nth_map_seq by lia.
      rewrite Z.mod_small by lia. f_equal. lia.
  - apply nth_ext with (d := " "%char) (d' := " "%char).
    + rewrite length_app, length_map, length_seq, !length_slice_in by lia. lia.
    + intros i Hi.
      rewrite length_app, !length_slice_in in Hi by lia.
      rewrite nth_map_seq by lia.
      destruct (Nat.lt_ge_cases i (Z.to_nat (W - sx))) as [H1 | H1].
      * rewrite app_nth1 by (rewrite length_slice_in by lia; lia).
        rewrite nth_slice_in by lia.
        rewrite Z.mod_small by lia. f_equal. lia.
      * rewrite app_nth2 by (rewrite length_slice_in by lia; lia).
        rewrite length_slice_in by lia.
        rewrite nth_slice_in by lia.
        replace ((sx + Z.of_nat i) mod W) with (sx + Z.of_nat i - W).
        -- f_equal. lia.
        -- rewrite <- (Z.mod_small (sx + Z.of_nat i - W) W) by lia.
           replace (sx + Z.of_nat i) with (sx + Z.of_nat i - W + 1 * W) at 2 by lia.
           rewrite Z.mod_add by lia. reflexivity.
Qed.

End Window.

Lemma length_slice_clamped {A : Type} (l : list A) (a b : Z) :
  0 <= a <= Z.of_nat (List.length l) -> a <= b ->
  Z.of_nat (List.length (slice l a b)) = Z.min b (Z.of_nat (List.length l)) - a.
Proof.
  intros Ha Hab. unfold slice.
  rewrite (slice_bound_in a) by lia.
  unfold slice_bound at 1. destruct (Z.ltb_spec b 0); [lia|].
  rewrite length_firstn, length_skipn. lia.
Qed.

Lemma circular_window_mod (srow : list ascii) (W s w : Z) :
  0 < W -> circular_window srow W (s mod W) w = circular_window srow W s w.
Proof.
  intros HW. unfold circular_window. apply map_ext. intros i.
  rewrite Z.add_mod_idemp_l by lia. reflexivity.
Qed.

Lemma render_row_length (disp : display) (e : env) (sx sy r : Z) (t : trace) :
  render_row disp e sx sy r = Ok t -> List.length t = 1%nat.
Proof.
  unfold render_row, bind.
  destruct (py_mod (sy + r) (scene_height e)); [|discriminate].
  destruct (getitem (scene e) a); [|discriminate].
  intros H. injection H as <-. reflexivity.
Qed.

Lemma render_rows_length (disp : display) (e : env) (sx sy : Z) (rows : list Z) (t : trace) :
  render_rows disp e sx sy rows = Ok t -> List.length t = List.length rows.
Proof.
  revert t. induction rows as [|r rows IH]; simpl; intros t H.
  - injection H as <-. reflexivity.
  - unfold bind in H.
    destruct (render_row disp e sx sy r) as [a|] eqn:Ha; [|discriminate].
    destruct (render_rows disp e sx sy rows) as [b|] eqn:Hb; [|discriminate].
    injection H as <-. rewrite length_app, (render_row_length _ _ _ _ _ _ Ha), (IH b eq_refl).
    reflexivity.
Qed.

(** C6: for a row of width [W] and a viewport width [w <= W], the line
    extracted at the anchor [s mod W] and at [(s + W) mod W] is the same,
    for every integer [s]; both are the toroidal window of [w] cells read
    from [s]. *)
Theorem extract_line_wrap_idempotent (srow : list ascii) (W s w : Z) :
  Z.of_nat (List.length srow) = W -> 0 < W -> 0 <= w <= W ->
  extract_line srow W (s mod W) w = extract_line srow W ((s + W) mod W) w /\
  extract_line srow W (s mod W) w = circular_window srow W s w.
Proof.
  intros Hrow HW Hw. split.
  - replace (s + W) with (s + 1 * W) by lia. rewrite Z.mod_add by lia. reflexivity.
  - rewrite extract_line_circular by (try assumption; pose proof (Z.mod_pos_bound s W HW); lia).
    apply circular_window_mod. exact HW.
Qed.

Lemma extract_line_wrap_idempotent_witness :
  Z.of_nat (List.length row10) = 10 /\ 0 < 10 /\ 0 <= 7 <= 10 /\
  extract_line row10 10 (23 mod 10) 7 = extract_line row10 10 ((23 + 10) mod 10) 7 /\
  extract_line row10 10 (23 mod 10) 7 = circular_window row10 10 23 7.
Proof.
  split; [reflexivity|]. split; [lia|]. split; [lia|].
  apply (extract_line_wrap_idempotent row10 10 23 7 eq_refl ltac:(lia) ltac:(lia)).
Defined.

(** C10: when the window ends exactly at the right edge ([sx + w = W]),
    the wrap branch taken by the code ([sx + w < W] is false) gives the
    same line as the single slice [[sx, sx + w)]. *)
Theorem extract_line_edge_exact (srow : list ascii) (W sx w : Z) :
  Z.of_nat (List.length srow) = W -> 0 <= sx -> 0 <= w -> sx + w = W ->
  extract_line srow W sx w = slice srow sx (sx + w).
Proof.
  intros Hrow Hsx Hw Hedge. unfold extract_line.
  destruct (Z.ltb_spec (sx + w) W); [lia|].
  replace (sx + w - W) with 0 by lia. rewrite slice_empty, app_nil_r.
  rewrite Hedge. reflexivity.
Qed.

Lemma extract_line_edge_exact_witness :
  Z.of_nat (List.length row10) = 10 /\ 0 <= 6 /\ 0 <= 4 /\ 6 + 4 = 10 /\
  extract_line row10 10 6 4 = slice row10 6 (6 + 4).
Proof.
  split; [reflexivity|]. split; [lia|]. split; [lia|]. split; [lia|].
  apply (extract_line_edge_exact row10 10 6 4 eq_refl ltac:(lia) ltac:(lia) ltac:(lia)).
Defined.

(** ** The anchor *)

Lemma py_int_comp (q1 q2 : Q) : q1 == q2 -> py_int q1 = py_int q2.
Proof.
  intros Heq. unfold py_int.
  destruct (Qle_bool 0 q1) eqn:H1, (Qle_bool 0 q2) eqn:H2.
  - apply Qfloor_comp. exact Heq.
  - apply Qle_bool_iff in H1. rewrite Heq in H1. apply Qle_bool_iff in H1. congruence.
  - apply Qle_bool_iff in H2. rewrite <- Heq in H2. apply Qle_bool_iff in H2. congruence.
  - apply Qceiling_comp. exact Heq.
Qed.

Lemma visible_start_ok (o : Q) (W : Z) :
  0 < W -> visible_start o W = Ok (py_int o mod W).
Proof.
  intros HW. unfold visible_start, py_mod.
  destruct (Z.eqb_spec W 0); [lia|]. reflexivity.
Qed.

(** C1 (counterexample): at [horizontal_offset = -0.5] and [W = 16] the
    anchor is [int(-0.5) % 16 = 0], not [floor(-0.5) mod 16 = 15]. *)
Lemma visible_start_truncates : visible_start (-1 # 2) 16 <> Ok (Qfloor (-1 # 2) mod 16).
Proof. vm_compute. discriminate. Qed.

(** C1 (amended): the anchor is [int(offset) % W], where [int] truncates
    toward zero and [%] is Python's floor modulo; it always lies in
    [[0, W)], and it equals [floor(offset) mod W] when the offset is
    non-negative or a whole number (for a negative non-whole offset it is
    [(floor(offset) + 1) mod W]). *)
Theorem visible_start_spec (o : Q) (W : Z) :
  0 < W ->
  visible_start o W = Ok ((if Qle_bool 0 o then Qfloor o else Qceiling o) mod W) /\
  0 <= py_int o mod W < W /\
  ((0 <= o)%Q \/ inject_Z (Qfloor o) == o -> visible_start o W = Ok (Qfloor o mod W)) /\
  ((o < 0)%Q -> ~ inject_Z (Qfloor o) == o -> visible_start o W = Ok ((Qfloor o + 1) mod W)).
Proof.
  intros HW. rewrite visible_start_ok by exact HW. unfold py_int.
  split; [reflexivity|]. split; [apply Z.mod_pos_bound; exact HW|]. split.
  - intros [Hnn | Hint].
    + apply Qle_bool_iff in Hnn. rewrite Hnn. reflexivity.
    + destruct (Qle_bool 0 o); [reflexivity|].
      rewrite <- (Qceiling_comp _ _ Hint), Qceiling_Z. reflexivity.
  - intros Hneg Hnint.
    destruct (Qle_bool 0 o) eqn:Hb.
    + apply Qle_bool_iff in Hb. exfalso. apply (Qlt_not_le _ _ Hneg Hb).
    + f_equal. f_equal.
      pose proof (Qfloor_le o) as F1. pose proof (Qlt_floor o) as F2.
      pose proof (Qle_ceiling o) as C1. pose proof (Qceiling_lt o) as C2.
      assert (Qfloor o < Qceiling o)%Z.
      { destruct (Z.lt_ge_cases (Qfloor o) (Qceiling o)) as [?|Hge]; [assumption|].
        exfalso. apply Hnint. apply Qle_antisym; [exact F1|].
        apply Qle_trans with (inject_Z (Qceiling o)); [exact C1|].
        rewrite <- Zle_Qle. pose proof (Qle_floor_ceiling o). lia. }
      assert (Qceiling o - 1 < Qfloor o + 1)%Z.
      { rewrite Zlt_Qlt. apply Qlt_trans with o; [exact C2|exact F2]. }
      lia.
Qed.

Lemma visible_start_spec_witness :
  0 < 16 /\ visible_start (-3 # 2) 16 = Ok ((Qfloor (-3 # 2) + 1) mod 16).
Proof.
  split; [lia|].
  apply (visible_start_spec (-3 # 2) 16 ltac:(lia)).
  - reflexivity.
  - vm_compute. discriminate.
Defined.

(** ** Binary64 arithmetic on integers *)

Lemma digits2_pos_size p : digits2_pos p = Pos.size p.
Proof. induction p; cbn; congruence. Qed.

Lemma Zdigits2_dg a : 0 < a -> Zdigits2 a = dg a.
Proof.
  destruct a as [|p|p]; try lia; intros _. unfold dg. cbn [Zdigits2].
  rewrite digits2_pos_size. destruct p; cbn [Z.log2 Pos.size]; rewrite ?Pos2Z.inj_succ; lia.
Qed.

Lemma dg_spec a : 0 < a -> 2 ^ (dg a - 1) <= a < 2 ^ dg a /\ 1 <= dg a.
Proof.
  intros Ha. unfold dg. pose proof (Z.log2_spec a Ha). pose proof (Z.log2_nonneg a).
  replace (Z.log2 a + 1 - 1) with (Z.log2 a) by lia. rewrite <- Z.add_1_r in H. lia.
Qed.

Lemma dg_unique a d : 1 <= d -> 2 ^ (d - 1) <= a < 2 ^ d -> dg a = d.
Proof.
  intros Hd Hb. unfold dg. rewrite (Z.log2_unique a (d - 1)); try lia.
  replace (Z.succ (d - 1)) with d by lia. lia.
Qed.

Lemma cm_spec a : 0 < a < 2 ^ 53 -> 2 ^ 52 <= cm a < 2 ^ 53 /\ dg a <= 53 /\ cm a = a * 2 ^ (- ce a).
Proof.
  intros Ha. destruct (dg_spec a ltac:(lia)) as [[H1 H2] H3].
  assert (Hd : dg a <= 53).
  { destruct (Z.le_gt_cases (dg a) 53) as [|Hc]; [lia|].
    assert (2 ^ 53 <= 2 ^ (dg a - 1)) by (apply Z.pow_le_mono_r; lia). lia. }
  unfold cm, ce. replace (- (dg a - 53)) with (53 - dg a) by lia. split; [|split; [lia|reflexivity]].
  assert (E1 : 2 ^ (dg a - 1) * 2 ^ (53 - dg a) = 2 ^ 52) by (rewrite <- Z.pow_add_r; [f_equal|..]; lia).
  assert (E2 : 2 ^ (dg a) * 2 ^ (53 - dg a) = 2 ^ 53) by (rewrite <- Z.pow_add_r; [f_equal|..]; lia).
  assert (0 < 2 ^ (53 - dg a)) by (apply Z.pow_pos_nonneg; lia).
  nia.
Qed.

Lemma shr_1_nonneg m r s :
  0 <= m -> shr_1 (Build_shr_record m r s) = Build_shr_record (m / 2) (Z.odd m) (r || s).
Proof.
  intros Hm. destruct m as [|p|p]; [reflexivity| |lia].
  destruct p; cbn -[Z.div]; f_equal.
  - apply Z.div_unique with (r := 1); lia.
  - apply Z.div_unique with (r := 0); lia.
Qed.

Lemma iter_pos_nat {A : Type} (f : A -> A) p x : iter_pos f p x = Nat.iter (Pos.to_nat p) f x.
Proof.
  revert x; induction p; intros x; cbn [iter_pos].
  - rewrite IHp, IHp, Pos2Nat.inj_xI, <- Nat.iter_add. cbn [Nat.iter].
    rewrite <- Nat.iter_succ_r. f_equal; lia.
  - rewrite IHp, IHp, Pos2Nat.inj_xO, <- Nat.iter_add. f_equal; lia.
  - reflexivity.
Qed.

Lemma iter_shr_1 n m : 0 <= m ->
  Nat.iter n shr_1 (Build_shr_record m false false) =
  Build_shr_record (m / 2 ^ Z.of_nat n)
    (match n with O => false | S k => Z.odd (m / 2 ^ Z.of_nat k) end)
    (match n with O => false | S k => negb (m mod 2 ^ Z.of_nat k =? 0) end).
Proof.
  intros Hm. induction n.
  - cbn. rewrite Z.div_1_r. reflexivity.
  - rewrite Nat.iter_succ, IHn, shr_1_nonneg.
    2: { apply Z.div_pos; [lia|]. apply Z.pow_pos_nonneg; lia. }
    assert (P : 0 < 2 ^ Z.of_nat n) by (apply Z.pow_pos_nonneg; lia).
    f_equal.
    + rewrite Z.div_div by lia. rewrite Nat2Z.inj_succ, Z.pow_succ_r by lia. f_equal. lia.
    + destruct n as [|k].
      * cbn -[Z.modulo]. rewrite Z.mod_1_r. reflexivity.
      * assert (Pk : 0 < 2 ^ Z.of_nat k) by (apply Z.pow_pos_nonneg; lia).
        replace (2 ^ Z.of_nat (S k)) with (2 ^ Z.of_nat k * 2)
          by (rewrite Nat2Z.inj_succ, Z.pow_succ_r; lia).
        rewrite Z.rem_mul_r by lia. rewrite Zmod_odd.
        pose proof (Z.mod_pos_bound m (2 ^ Z.of_nat k) Pk).
        destruct (Z.odd (m / 2 ^ Z.of_nat k)); destruct (Z.eqb_spec (m mod 2 ^ Z.of_nat k) 0);
          cbn [orb negb];
          first [ symmetry; apply Bool.negb_true_iff, Z.eqb_neq; lia
                | symmetry; apply Bool.negb_false_iff, Z.eqb_eq; lia ].
Qed.

Lemma iter_pos_shr p M : 0 <= M ->
  iter_pos shr_1 p (Build_shr_record M false false) =
  Build_shr_record (M / 2 ^ Zpos p) (Z.odd (M / 2 ^ (Zpos p - 1)))
                   (negb (M mod 2 ^ (Zpos p - 1) =? 0)).
Proof.
  intros HM. rewrite iter_pos_nat. destruct (Pos2Nat.is_succ p) as [k Hk].
  rewrite Hk, iter_shr_1 by exact HM.
  assert (E : Z.of_nat (S k) = Zpos p) by (rewrite <- Hk; apply positive_nat_Z).
  rewrite E. replace (Z.of_nat k) with (Zpos p - 1) by lia. reflexivity.
Qed.

Lemma fexp_53 F : -1074 <= F -> fexp 53 1024 (53 + F) = F.
Proof. intros H. unfold fexp, emin. lia. Qed.

Lemma shr_fexp_exact V F :
  2 ^ 52 <= V < 2 ^ 53 -> -1074 <= F ->
  shr_fexp 53 1024 V F loc_Exact = (Build_shr_record V false false, F).
Proof.
  intros HV HF. unfold shr_fexp. rewrite Zdigits2_dg by lia.
  rewrite (dg_unique V 53) by lia. rewrite fexp_53 by exact HF.
  rewrite Z.sub_diag. reflexivity.
Qed.

Lemma shr_fexp_M M E V F R :
  2 ^ 52 <= V < 2 ^ 53 -> -1074 <= F -> E <= F ->
  M = V * 2 ^ (F - E) + R -> 0 <= R ->
  (F = E -> R = 0) -> (E < F -> R < 2 ^ (F - E - 1)) ->
  shr_fexp 53 1024 M E loc_Exact = (Build_shr_record V false (negb (R =? 0)), F).
Proof.
  intros HV HF HEF HM HR0 HR1 HR2.
  assert (T : 0 < 2 ^ (F - E)) by (apply Z.pow_pos_nonneg; lia).
  assert (RT : R < 2 ^ (F - E)).
  { destruct (Z.eq_dec F E) as [e|ne].
    - rewrite (HR1 e). lia.
    - assert (2 ^ (F - E - 1) < 2 ^ (F - E)) by (apply Z.pow_lt_mono_r; lia).
      specialize (HR2 ltac:(lia)). lia. }
  assert (Hd : dg M = 53 + F - E).
  { apply dg_unique; [lia|].
    replace (53 + F - E - 1) with (52 + (F - E)) by lia.
    replace (53 + F - E) with (53 + (F - E)) by lia.
    rewrite !Z.pow_add_r by lia. nia. }
  unfold shr_fexp. rewrite Zdigits2_dg by nia. rewrite Hd.
  replace (53 + F - E + E) with (53 + F) by lia. rewrite fexp_53 by exact HF.
  cbn [shr_record_of_loc]. unfold shr.
  destruct (Z.eq_dec F E) as [e|ne].
  - subst F. rewrite (HR1 eq_refl) in *. rewrite Z.sub_diag in *.
    rewrite Z.pow_0_r, Z.mul_1_r, Z.add_0_r in HM. subst M. reflexivity.
  - destruct (F - E) as [|p|p] eqn:Hk; try lia.
    rewrite iter_pos_shr by nia.
    assert (Pp : 0 < 2 ^ (Zpos p - 1)) by (apply Z.pow_pos_nonneg; lia).
    assert (Ep : 2 ^ Zpos p = 2 ^ (Zpos p - 1) * 2).
    { rewrite Z.mul_comm, <- Z.pow_succ_r by lia. f_equal. lia. }
    specialize (HR2 ltac:(lia)).
    assert (Hq : M / 2 ^ Zpos p = V).
    { symmetry. apply Z.div_unique with (r := R); lia. }
    assert (Hq' : M / 2 ^ (Zpos p - 1) = 2 * V).
    { symmetry. apply Z.div_unique with (r := R); [lia|]. rewrite HM, Ep. ring. }
    assert (Hr' : M mod 2 ^ (Zpos p - 1) = R).
    { symmetry. apply Z.mod_unique with (q := 2 * V); [lia|]. rewrite HM, Ep. ring. }
    rewrite Hq, Hq', Hr', Z.odd_mul. cbn [Z.odd andb]. f_equal. lia.
Qed.

Lemma round_aux_ok s M E V F R :
  2 ^ 52 <= V < 2 ^ 53 -> -1074 <= F <= 971 -> E <= F ->
  M = V * 2 ^ (F - E) + R -> 0 <= R ->
  (F = E -> R = 0) -> (E < F -> R < 2 ^ (F - E - 1)) ->
  binary_round_aux 53 1024 s M E loc_Exact = S754_finite s (Z.to_pos V) F.
Proof.
  intros HV HF HEF HM HR0 HR1 HR2. unfold binary_round_aux.
  rewrite (shr_fexp_M M E V F R) by (assumption || lia).
  cbn [shr_m].
  replace (round_nearest_even V (loc_of_shr_record (Build_shr_record V false (negb (R =? 0)))))
    with V by (destruct (negb (R =? 0)); reflexivity).
  rewrite shr_fexp_exact by lia. cbn [shr_m].
  destruct V as [|v|v]; try lia.
  replace (Z.leb F (1024 - 53)) with true by (symmetry; apply Z.leb_le; lia).
  reflexivity.
Qed.

Lemma Pos_iter_xO p d : Zpos (Pos.iter xO p d) = Zpos p * 2 ^ Zpos d.
Proof.
  induction d using Pos.peano_ind.
  - cbn [Pos.iter]. rewrite Pos2Z.inj_xO. ring.
  - rewrite Pos.iter_succ, Pos2Z.inj_xO, IHd, Pos2Z.inj_succ, Z.pow_succ_r by lia. ring.
Qed.

Lemma binary_round_int s p E v :
  0 < v < 2 ^ 53 -> E <= 0 -> Zpos p = v * 2 ^ (- E) ->
  binary_round 53 1024 s p E = S754_finite s (Z.to_pos (cm v)) (ce v).
Proof.
  intros Hv HE Hp. destruct (cm_spec v Hv) as [Hcm [Hd53 Hcme]].
  destruct (dg_spec v ltac:(lia)) as [[D1 D2] D3].
  assert (PE : 0 < 2 ^ (- E)) by (apply Z.pow_pos_nonneg; lia).
  assert (Hdp : Zpos (digits2_pos p) = dg v - E).
  { change (Zpos (digits2_pos p)) with (Zdigits2 (Zpos p)).
    rewrite Zdigits2_dg by lia. rewrite Hp. apply dg_unique; [lia|].
    replace (dg v - E - 1) with ((dg v - 1) + - E) by lia.
    replace (dg v - E) with (dg v + - E) by lia.
    rewrite !Z.pow_add_r by lia. nia. }
  unfold binary_round. rewrite Hdp.
  replace (fexp 53 1024 (dg v - E + E)) with (ce v) by (unfold fexp, emin, ce; lia).
  unfold shl_align.
  assert (Hce : -1074 <= ce v <= 0) by (unfold ce; lia).
  assert (Ecm : cm v = v * 2 ^ (- ce v)) by exact Hcme.
  destruct (ce v - E) as [|d|d] eqn:Hd.
  - apply (round_aux_ok s (Zpos p) E (cm v) (ce v) 0); try lia.
    replace (ce v - E) with 0 by lia. replace E with (ce v) in Hp by lia.
    rewrite Hp, Ecm. ring.
  - apply (round_aux_ok s (Zpos p) E (cm v) (ce v) 0); try lia.
    rewrite Hp, Ecm, Z.add_0_r, <- Z.mul_assoc, <- Z.pow_add_r by lia.
    f_equal. f_equal. lia.
  - apply (round_aux_ok s _ (ce v) (cm v) (ce v) 0); try lia.
    rewrite Pos_iter_xO, Hp, Ecm. replace (Zpos d) with (E - ce v) by lia.
    rewrite Z.sub_diag, Z.pow_0_r, Z.mul_1_r, Z.add_0_r, <- Z.mul_assoc, <- Z.pow_add_r by lia.
    do 2 f_equal. lia.
Qed.

Lemma binary_normalize_int n E N :
  0 < Z.abs n < 2 ^ 53 -> E <= 0 -> N = n * 2 ^ (- E) ->
  binary_normalize 53 1024 N E false = S754_finite (n <? 0) (Z.to_pos (cm (Z.abs n))) (ce (Z.abs n)).
Proof.
  intros Hn HE HN. assert (PE : 0 < 2 ^ (- E)) by (apply Z.pow_pos_nonneg; lia).
  destruct N as [|p|p]; cbn [binary_normalize].
  - nia.
  - assert (0 < n) by nia. replace (n <? 0) with false by (symmetry; apply Z.ltb_ge; lia).
    apply binary_round_int; [lia|lia|]. rewrite Z.abs_eq by lia. exact HN.
  - assert (n < 0) by nia. replace (n <? 0) with true by (symmetry; apply Z.ltb_lt; lia).
    apply binary_round_int; [lia|lia|]. rewrite Z.abs_neq by lia.
    change (Zpos p) with (- Zneg p). rewrite HN. ring.
Qed.

Lemma float_of_Z_fin n :
  0 < Z.abs n < 2 ^ 53 ->
  float_of_Z n = S754_finite (n <? 0) (Z.to_pos (cm (Z.abs n))) (ce (Z.abs n)).
Proof. intros Hn. apply binary_normalize_int; [exact Hn|lia|]. cbn. ring. Qed.





Lemma py_int_Z (k : Z) : py_int (inject_Z k) = k.
Proof.
  unfold py_int. destruct (Qle_bool 0 (inject_Z k)).
  - apply Qfloor_Z.
  - apply Qceiling_Z.
Qed.

Lemma cond_Zopp_abs (k P : Z) : cond_Zopp (k <? 0) (Z.abs k * P) = k * P.
Proof.
  unfold cond_Zopp. destruct (Z.ltb_spec k 0).
  - rewrite Z.abs_neq by lia. ring.
  - rewrite Z.abs_eq by lia. ring.
Qed.

Lemma float_to_Q_of_Z (k : Z) : Z.abs k < 2 ^ 53 -> float_to_Q (float_of_Z k) == inject_Z k.
Proof.
  intros Hk. destruct (Z.eq_dec k 0) as [->|Hk0]; [reflexivity|].
  rewrite float_of_Z_fin by lia. unfold float_to_Q.
  destruct (cm_spec (Z.abs k) ltac:(lia)) as [Hcm [Hd Ecm]].
  rewrite Z2Pos.id by lia. rewrite Ecm, cond_Zopp_abs.
  destruct (Z.leb_spec 0 (ce (Z.abs k))) as [H0|H0].
  - assert (E : ce (Z.abs k) = 0) by (unfold ce in *; lia).
    rewrite E, Z.opp_0, Z.pow_0_r, !Z.mul_1_r. reflexivity.
  - unfold Qeq. cbn [Qnum Qden inject_Z].
    rewrite Z2Pos.id by (apply Z.pow_pos_nonneg; lia). ring.
Qed.




(** ** The anchor of a float offset *)

Lemma anchor_fin (o : float) (size s : Z) :
  anchor o size = Ok s -> anchor o size = visible_start (float_to_Q o) size.
Proof. destruct o; intros H; try discriminate; reflexivity. Qed.

Lemma anchor_ok_inv (o : float) (size s : Z) :
  0 < size -> anchor o size = Ok s -> s = py_int (float_to_Q o) mod size.
Proof.
  intros Hs H. rewrite (anchor_fin _ _ _ H), visible_start_ok in H by exact Hs.
  injection H as <-. reflexivity.
Qed.

Lemma anchor_err (o : float) (size : Z) (ex : exn) :
  0 < size -> anchor o size = Err ex -> arith_error ex.
Proof.
  intros Hs H. unfold arith_error.
  destruct o; cbn [anchor] in H.
  all: try (injection H as <-; first [left; reflexivity | right; reflexivity]).
  all: rewrite visible_start_ok in H by exact Hs; discriminate.
Qed.

Lemma anchor_of_Z (k W : Z) :
  Z.abs k < 2 ^ 53 -> 0 < W -> anchor (float_of_Z k) W = Ok (k mod W).
Proof.
  intros Hk HW.
  assert (E : anchor (float_of_Z k) W = visible_start (float_to_Q (float_of_Z k)) W).
  { destruct (Z.eq_dec k 0) as [->|Hk0]; [reflexivity|].
    rewrite float_of_Z_fin by lia. reflexivity. }
  rewrite E, visible_start_ok by exact HW.
  rewrite (py_int_comp _ _ (float_to_Q_of_Z k Hk)), py_int_Z. reflexivity.
Qed.

Lemma anchor_zero (W : Z) : 0 < W -> anchor (S754_zero false) W = Ok 0.
Proof. intros HW. apply (anchor_of_Z 0 W); lia. Qed.

(** ** Shape of a frame *)

Lemma Ok_inj {A : Type} (a b : A) : Ok a = Ok b -> a = b.
Proof. intros H. injection H as H. exact H. Qed.

Lemma frame_inv (disp : display) (e : env) (st st' : state) (t : trace) :
  frame disp e st = Ok (st', t) ->
  exists sx sy t1,
    camera e st = Ok (st', (sx, sy)) /\
    render_rows disp e sx sy (range (max_y e)) = Ok t1 /\
    t = (Clear, false) :: t1 ++
        [(crosshair e, disp (crosshair e)); (HideCursor, false); (Refresh, false)].
Proof.
  unfold frame, unguarded, guarded, bind.
  destruct (disp Clear); [discriminate|].
  destruct (camera e st) as [[st1 [sx sy]]|] eqn:Hc; [|discriminate].
  cbv beta iota.
  destruct (render_rows disp e sx sy (range (max_y e))) as [t1|] eqn:Ht1; [|discriminate].
  destruct (disp Refresh); [discriminate|].
  intros H. injection H as <- <-.
  exists sx, sy, t1. repeat split; assumption.
Qed.

Lemma camera_inv (e : env) (st st1 : state) (sx sy : Z) :
  camera e st = Ok (st1, (sx, sy)) ->
  advance (fst (drain_read st)) (snd (drain_read st)) (drain_reset st) = Ok st1 /\
  anchor (scene_offset st1) (scene_width e) = Ok sx /\
  anchor (vertical_offset st1) (scene_height e) = Ok sy.
Proof.
  unfold camera, bind. destruct (drain_read st) as [dx dy]. cbn [fst snd].
  destruct (advance dx dy (drain_reset st)) as [s1|] eqn:Ha; [|discriminate].
  destruct (anchor (scene_offset s1) (scene_width e)) as [x|] eqn:Hx; [|discriminate].
  destruct (anchor (vertical_offset s1) (scene_height e)) as [y|] eqn:Hy; [|discriminate].
  intros H. apply Ok_inj in H. injection H as <- <- <-. auto.
Qed.

Lemma scaled_err (d : Z) (ex : exn) : scaled d = Err ex -> ex = OverflowError.
Proof.
  unfold scaled, float_of_int, bind.
  destruct (float_of_Z d); intros H; try discriminate. injection H as <-. reflexivity.
Qed.

Lemma advance_err (dx dy : Z) (st : state) (ex : exn) :
  advance dx dy st = Err ex -> ex = OverflowError.
Proof.
  unfold advance, bind.
  destruct (scaled dx) as [a|e1] eqn:H1; [destruct (scaled dy) as [b|e2] eqn:H2|];
    intros H; try discriminate; injection H as <-.
  - exact (scaled_err _ _ H2).
  - exact (scaled_err _ _ H1).
Qed.

Lemma advance_store (dx dy : Z) (st st' : state) :
  advance dx dy st = Ok st' -> heap st' = heap st /\ buf st' = buf st.
Proof.
  unfold advance, bind.
  destruct (scaled dx); [|discriminate]. destruct (scaled dy); [|discriminate].
  intros H. apply Ok_inj in H. subst st'. split; reflexivity.
Qed.

(** Moving the camera by [(dx, 0)] when [float(dx)] is [f]. *)
Lemma advance_zero_dy (dx : Z) (st : state) (f : float) :
  float_of_int dx = Ok f ->
  advance dx 0 st = Ok (mkState (float_sub (scene_offset st) (float_mul f SCROLL_SPEED))
                                (float_add (vertical_offset st) (S754_zero false))
                                (heap st) (buf st)).
Proof. intros H. unfold advance, scaled, bind. rewrite H. reflexivity. Qed.

Lemma camera_err (e : env) (st : state) (ex : exn) :
  0 < scene_width e -> 0 < scene_height e ->
  camera e st = Err ex -> arith_error ex.
Proof.
  intros HW HH. unfold camera, bind. destruct (drain_read st) as [dx dy].
  destruct (advance dx dy (drain_reset st)) as [s1|e1] eqn:Ha.
  - destruct (anchor (scene_offset s1) (scene_width e)) as [x|e2] eqn:Hx.
    + destruct (anchor (vertical_offset s1) (scene_height e)) as [y|e3] eqn:Hy;
        intros H; [discriminate|]. injection H as <-. exact (anchor_err _ _ _ HH Hy).
    + intros H. injection H as <-. exact (anchor_err _ _ _ HW Hx).
  - intros H. injection H as <-. left. exact (advance_err _ _ _ _ Ha).
Qed.

Lemma heap_get_last (h : list (Z * Z)) (v : Z * Z) : heap_get (h ++ [v]) (List.length h) = v.
Proof. unfold heap_get. rewrite app_nth2 by lia. rewrite Nat.sub_diag. reflexivity. Qed.

Lemma frame_store (disp : display) (e : env) (st st' : state) (t : trace) :
  frame disp e st = Ok (st', t) ->
  heap st' = heap st ++ [(0, 0)] /\ buf st' = List.length (heap st).
Proof.
  intros H. destruct (frame_inv _ _ _ _ _ H) as (sx & sy & t1 & Hc & _).
  destruct (camera_inv _ _ _ _ _ Hc) as [Ha _].
  destruct (advance_store _ _ _ _ Ha) as [Hh Hb].
  rewrite Hh, Hb. split; reflexivity.
Qed.

Lemma frame_buffer_cleared (disp : display) (e : env) (st st' : state) (t : trace) :
  frame disp e st = Ok (st', t) -> buffer st' = (0, 0).
Proof.
  intros H. destruct (frame_store _ _ _ _ _ H) as [Hh Hb].
  unfold buffer. rewrite Hh, Hb. apply heap_get_last.
Qed.

Lemma written_rows_app (a b : trace) : written_rows (a ++ b) = written_rows a ++ written_rows b.
Proof.
  induction a as [|[c f] a IH]; simpl; [reflexivity|].
  destruct c; simpl; rewrite ?IH; reflexivity.
Qed.

Lemma written_cells_app (a b : trace) : written_cells (a ++ b) = written_cells a ++ written_cells b.
Proof.
  induction a as [|[c f] a IH]; simpl; [reflexivity|].
  destruct c; simpl; rewrite ?IH; reflexivity.
Qed.

Lemma getitem_in {A : Type} (l : list A) (i : Z) :
  0 <= i < Z.of_nat (List.length l) -> exists x, getitem l i = Ok x.
Proof.
  intros Hi. unfold getitem.
  destruct (Z.ltb_spec i 0); [lia|]. destruct (Z.ltb_spec i 0); [lia|].
  destruct (nth_error l (Z.to_nat i)) as [x|] eqn:Hn.
  - exists x. reflexivity.
  - apply nth_error_None in Hn. lia.
Qed.

(** Rows render without raising in a well-formed environment: every write
    fault is swallowed, and one [addstr] is issued per row. *)
Lemma render_rows_ok (disp : display) (e : env) (sx sy : Z) (rows : list Z) :
  0 < scene_height e -> List.length (scene e) = Z.to_nat (scene_height e) ->
  exists t, render_rows disp e sx sy rows = Ok t /\ written_rows t = rows /\ written_cells t = [].
Proof.
  intros HH Hlen. induction rows as [|r rows IH]; simpl.
  - exists []. repeat split.
  - destruct IH as (t & Ht & Hw & Hc).
    unfold render_row, py_mod, bind.
    destruct (Z.eqb_spec (scene_height e) 0); [lia|].
    destruct (getitem_in (scene e) ((sy + r) mod scene_height e)) as [srow Hs].
    { pose proof (Z.mod_pos_bound (sy + r) (scene_height e) HH). lia. }
    rewrite Hs, Ht. eexists. split; [reflexivity|].
    simpl. rewrite Hw, Hc. split; reflexivity.
Qed.

Lemma render_rows_cells (disp : display) (e : env) (sx sy : Z) (rows : list Z) (t : trace) :
  render_rows disp e sx sy rows = Ok t -> written_cells t = [].
Proof.
  revert t. induction rows as [|r rows IH]; simpl; intros t H.
  - injection H as <-. reflexivity.
  - unfold bind in H.
    destruct (render_row disp e sx sy r) as [a|] eqn:Ha; [|discriminate].
    destruct (render_rows disp e sx sy rows) as [b|] eqn:Hb; [|discriminate].
    injection H as <-. rewrite written_cells_app, (IH b eq_refl), app_nil_r.
    unfold render_row, bind in Ha.
    destruct (py_mod _ _); [|discriminate]. destruct (getitem _ _); [|discriminate].
    injection Ha as <-. reflexivity.
Qed.

Lemma wf_env_sizes (e : env) : wf_env e -> 0 < scene_width e /\ 0 < scene_height e.
Proof.
  intros (Hx & Hy & Hw & Hh & _).
  rewrite Hw, Hh. unfold SCENE_WIDTH_MULTIPLIER, SCENE_HEIGHT_MULTIPLIER. lia.
Qed.

Lemma display_not_write (disp : display) (c : cmd) :
  (forall c, disp c = true -> is_write c = true) -> is_write c = false -> disp c = false.
Proof.
  intros Hdisp Hc. destruct (disp c) eqn:E; [|reflexivity].
  apply Hdisp in E. congruence.
Qed.

Lemma unguarded_ok (disp : display) (c : cmd) :
  (forall c, disp c = true -> is_write c = true) -> is_write c = false ->
  unguarded disp c = Ok [(c, false)].
Proof.
  intros Hdisp Hc. unfold unguarded. rewrite (display_not_write disp c Hdisp Hc). reflexivity.
Qed.

(** Once the camera has moved, a frame on a well-formed environment
    completes on a display that may fail on writes only. *)
Lemma frame_complete (disp : display) (e : env) (st st1 : state) (sx sy : Z) :
  wf_env e -> (forall c, disp c = true -> is_write c = true) ->
  camera e st = Ok (st1, (sx, sy)) ->
  exists t, frame disp e st = Ok (st1, t) /\
    written_rows t = range (max_y e) /\ written_cells t = [(max_y e / 2, max_x e / 2)].
Proof.
  intros Hwf Hdisp Hc.
  destruct (wf_env_sizes e Hwf) as [HW HH].
  destruct Hwf as (Hx & Hy & Hw & Hh & Hlen).
  destruct (render_rows_ok disp e sx sy (range (max_y e)) HH Hlen) as (t1 & Ht1 & Hrows & Hcells).
  unfold frame. rewrite (unguarded_ok disp Clear Hdisp eq_refl), (unguarded_ok disp Refresh Hdisp eq_refl).
  cbn [bind].
  rewrite Hc. cbn [bind]. rewrite Ht1. cbn [bind].
  eexists. split; [reflexivity|].
  simpl. rewrite written_rows_app, written_cells_app, Hrows, Hcells. simpl.
  rewrite app_nil_r. split; reflexivity.
Qed.

Lemma frame_err (disp : display) (e : env) (st : state) (ex : exn) :
  wf_env e -> (forall c, disp c = true -> is_write c = true) ->
  frame disp e st = Err ex -> arith_error ex.
Proof.
  intros Hwf Hdisp H.
  destruct (camera e st) as [[st1 [sx sy]]|ex'] eqn:Hc.
  - destruct (frame_complete disp e st st1 sx sy Hwf Hdisp Hc) as (t & Hf & _). congruence.
  - destruct (wf_env_sizes e Hwf) as [HW HH].
    unfold frame in H. rewrite (unguarded_ok disp Clear Hdisp eq_refl) in H. cbn [bind] in H.
    rewrite Hc in H. cbn [bind] in H. injection H as <-.
    exact (camera_err e st ex' HW HH Hc).
Qed.

Lemma run_frames_err (disp : display) (e : env) (listening : bool)
      (inputs : list (list (Z * Z))) (st : state) (ex : exn) :
  wf_env e -> (forall c, disp c = true -> is_write c = true) ->
  run_frames disp e listening inputs st = Err ex -> arith_error ex.
Proof.
  intros Hwf Hdisp. revert st.
  induction inputs as [|m inputs IH]; intros st H; cbn [run_frames] in H; [discriminate|].
  unfold bind in H.
  destruct (frame disp e (deliver listening m st)) as [[st1 t]|ex'] eqn:Hf.
  - exact (IH _ H).
  - injection H as <-. exact (frame_err _ _ _ _ Hwf Hdisp Hf).
Qed.

Lemma wf_env4 : wf_env env4.
Proof. unfold wf_env. vm_compute. repeat split; reflexivity. Qed.

Lemma wf_env80 : wf_env env80.
Proof. unfold wf_env. vm_compute. repeat split; reflexivity. Qed.

Lemma failing_display_writes : forall c, failing_display c = true -> is_write c = true.
Proof. intros c H. exact H. Qed.

Lemma quiet_display_writes : forall c, quiet_display c = true -> is_write c = true.
Proof. discriminate. Qed.

(** ** The camera update *)



(** C8: whatever the camera state, the only [addch] of a frame writes the
    crosshair at the viewport cell [(max_y // 2, max_x // 2)]. *)
Theorem crosshair_fixed (disp : display) (e : env) (st st' : state) (t : trace) :
  frame disp e st = Ok (st', t) -> written_cells t = [(max_y e / 2, max_x e / 2)].
Proof.
  intros H. destruct (frame_inv _ _ _ _ _ H) as (sx & sy & t1 & _ & Ht1 & ->).
  simpl. rewrite written_cells_app, (render_rows_cells _ _ _ _ _ _ Ht1). reflexivity.
Qed.

Lemma crosshair_fixed_witness :
  exists st' t, frame quiet_display env4 cam45 = Ok (st', t) /\ written_cells t = [(4 / 2, 4 / 2)].
Proof.
  destruct (frame quiet_display env4 cam45) as [[st' t]|] eqn:H.
  - exists st', t. split; [reflexivity|]. exact (crosshair_fixed _ _ _ _ _ H).
  - vm_compute in H. discriminate.
Defined.

(** C9: in the environment [render_scene] builds, whatever writes the
    terminal refuses, a write fault never ends a frame or the loop: once
    the camera has moved, the frame completes, having issued the [addstr]
    of every viewport row and the crosshair [addch]; a frame, and the loop,
    can only stop on an [OverflowError] or [ValueError] of the camera
    arithmetic, never on [curses.error]. *)
Theorem write_faults_swallowed (disp : display) (e : env) (st : state) :
  wf_env e -> (forall c, disp c = true -> is_write c = true) ->
  (forall st1 sx sy, camera e st = Ok (st1, (sx, sy)) ->
     exists t, frame disp e st = Ok (st1, t) /\
       written_rows t = range (max_y e) /\ written_cells t = [(max_y e / 2, max_x e / 2)]) /\
  (forall ex, frame disp e st = Err ex -> arith_error ex) /\
  (forall listening inputs ex, run_frames disp e listening inputs st = Err ex -> arith_error ex).
Proof.
  intros Hwf Hdisp. split; [|split].
  - intros st1 sx sy Hc. exact (frame_complete disp e st st1 sx sy Hwf Hdisp Hc).
  - intros ex. exact (frame_err disp e st ex Hwf Hdisp).
  - intros listening inputs ex. exact (run_frames_err disp e listening inputs st ex Hwf Hdisp).
Qed.

Lemma write_faults_swallowed_witness :
  wf_env env4 /\ (forall c, failing_display c = true -> is_write c = true) /\
  exists st1 sx sy t,
    camera env4 cam45 = Ok (st1, (sx, sy)) /\ frame failing_display env4 cam45 = Ok (st1, t) /\
    written_rows t = range (max_y env4) /\ written_cells t = [(max_y env4 / 2, max_x env4 / 2)].
Proof.
  split; [exact wf_env4|]. split; [exact failing_display_writes|].
  destruct (camera env4 cam45) as [[st1 [sx sy]]|] eqn:Hc; [|vm_compute in Hc; discriminate].
  destruct (proj1 (write_faults_swallowed failing_display env4 cam45 wf_env4 failing_display_writes)
              st1 sx sy Hc) as (t & Hf & Hr & Hcl).
  exists st1, sx, sy, t. repeat split; assumption.
Defined.

(** ** The callback and the buffer *)

Lemma heap_get_set (h : list (Z * Z)) (p : nat) (v : Z * Z) :
  (p < List.length h)%nat -> heap_get (heap_set h p v) p = v.
Proof.
  revert p. induction h as [|x h IH]; intros p Hp; simpl in Hp; [lia|].
  destruct p as [|p]; [reflexivity|]. unfold heap_get. simpl. apply IH. lia.
Qed.

Lemma callback_scene_offset (ty : event_type) (dx dy : Z) (s : state) :
  scene_offset (mouse_event_callback ty dx dy s) = scene_offset s.
Proof. destruct ty; simpl; [destruct (buffer s)|]; reflexivity. Qed.

Lemma callback_vertical_offset (ty : event_type) (dx dy : Z) (s : state) :
  vertical_offset (mouse_event_callback ty dx dy s) = vertical_offset s.
Proof. destruct ty; simpl; [destruct (buffer s)|]; reflexivity. Qed.


(** ** A scroll by a whole scene width *)




(** ** Start-up *)

Lemma camera_still (e : env) (st : state) :
  0 < scene_width e -> 0 < scene_height e ->
  buffer st = (0, 0) -> scene_offset st = S754_zero false -> vertical_offset st = S754_zero false ->
  camera e st = Ok (drain_reset st, (0, 0)).
Proof.
  intros HW HH Hb Ho Hv. unfold camera, drain_read. rewrite Hb.
  rewrite (advance_zero_dy 0 _ (S754_zero false) eq_refl). cbn [bind].
  unfold drain_reset. cbn [scene_offset vertical_offset heap buf]. rewrite Ho, Hv.
  change (float_sub (S754_zero false) (float_mul (S754_zero false) SCROLL_SPEED)) with (S754_zero false).
  change (float_add (S754_zero false) (S754_zero false)) with (S754_zero false).
  rewrite !anchor_zero by assumption. reflexivity.
Qed.

(** When no motion reaches the buffer, the camera stays at [(0.0, 0.0)] and
    every frame completes. *)
Lemma run_frames_frozen (disp : display) (e : env) (listening : bool)
      (inputs : list (list (Z * Z))) (st : state) :
  wf_env e -> (forall c, disp c = true -> is_write c = true) ->
  (forall m s, In m inputs -> deliver listening m s = s) ->
  buffer st = (0, 0) -> scene_offset st = S754_zero false -> vertical_offset st = S754_zero false ->
  exists st', run_frames disp e listening inputs st = Ok st' /\
    buffer st' = (0, 0) /\ scene_offset st' = S754_zero false /\ vertical_offset st' = S754_zero false.
Proof.
  intros Hwf Hdisp. destruct (wf_env_sizes e Hwf) as [HW HH]. revert st.
  induction inputs as [|m inputs IH]; intros st Hdel Hb Ho Hv; cbn [run_frames].
  - exists st. repeat split; assumption.
  - rewrite (Hdel m st (or_introl eq_refl)).
    destruct (frame_complete disp e st (drain_reset st) 0 0 Hwf Hdisp
                (camera_still e st HW HH Hb Ho Hv)) as (t & Hf & _).
    unfold bind. rewrite Hf. cbn [fst].
    apply IH.
    + intros m' s Hin. apply Hdel. right. exact Hin.
    + exact (frame_buffer_cleared _ _ _ _ _ Hf).
    + exact Ho.
    + exact Hv.
Qed.

(** On a display that may fail on writes only, [curses.wrapper] sets the
    terminal up and hands over to [render_scene], whose own set-up calls
    succeed too. *)
Lemma wrapper_setup (disp : display) (my mx : Z) (listening : bool)
      (inputs : list (list (Z * Z))) :
  (forall c, disp c = true -> is_write c = true) ->
  wrapper disp my mx listening inputs =
    (let! e := make_env my mx in run_frames disp e listening inputs initial_state).
Proof.
  intros Hdisp. unfold wrapper, render_scene.
  rewrite !(unguarded_ok disp _ Hdisp) by reflexivity. cbn [bind].
  destruct (make_env my mx) as [e|ex]; cbn [bind];
    [destruct (run_frames disp e listening inputs initial_state)|]; reflexivity.
Qed.

Lemma make_env80 : make_env 24 80 = Ok env80.
Proof. vm_compute. reflexivity. Qed.

(** C4 (code defect): on an 80x24 terminal, when [CGEventTapCreate] fails,
    the exception ends only the daemon listener thread (its message goes to
    [threading.excepthook]); the process is not aborted, and the main thread
    keeps rendering with a camera that stays at its initial position,
    whatever motion the user makes. *)
Theorem listener_failure_keeps_running (disp : display) (inputs : list (list (Z * Z))) :
  (forall c, disp c = true -> is_write c = true) ->
  listener (program disp false 24 80 inputs) = ThreadDied (Exception "Unable to create event tap.") /\
  stderr (program disp false 24 80 inputs) = ["Unable to create event tap."%string] /\
  aborted (program disp false 24 80 inputs) = false /\
  exists st, main_thread (program disp false 24 80 inputs) = Ok st /\
             scene_offset st = scene_offset initial_state /\
             vertical_offset st = vertical_offset initial_state.
Proof.
  intros Hdisp.
  destruct (run_frames_frozen disp env80 false inputs initial_state wf_env80 Hdisp
              (fun m s _ => eq_refl) eq_refl eq_refl eq_refl) as (st & Hrun & _ & Ho & Hv).
  unfold program. cbn [spawn start_mouse_listener excepthook_output listener stderr
                       main_thread aborted].
  rewrite wrapper_setup by exact Hdisp. rewrite make_env80. cbn [bind]. rewrite Hrun.
  repeat split; try reflexivity. exists st. repeat split; assumption.
Qed.

Lemma listener_failure_keeps_running_witness :
  (forall c, quiet_display c = true -> is_write c = true) /\
  aborted (program quiet_display false 24 80 [[(3, 4)]; [(-7, 1)]]) = false.
Proof.
  split; [exact quiet_display_writes|].
  exact (proj1 (proj2 (proj2 (listener_failure_keeps_running quiet_display [[(3, 4)]; [(-7, 1)]]
                                quiet_display_writes)))).
Defined.
(** ** The drain race *)

Lemma heap_set_set (h : list (Z * Z)) (p : nat) (v w : Z * Z) :
  heap_set (heap_set h p v) p w = heap_set h p w.
Proof.
  revert p. induction h as [|x h IH]; intros [|p]; cbn [heap_set]; try reflexivity.
  rewrite IH. reflexivity.
Qed.

(** The steps of one callback, run back to back, do what
    [mouse_event_callback] does. *)
Lemma callback_steps_run (s : sys) (dx dy : Z) :
  cb_reg s = None -> buf_valid (shared s) ->
  run_sched s (callback_steps dx dy) =
    mkSys (mouse_event_callback kCGEventMouseMoved dx dy (shared s)) None (reads s) (drained s).
Proof.
  destruct s as [[so vo h b] c r d]. cbn [cb_reg shared]. intros -> Hv.
  unfold buf_valid in Hv. cbn [heap buf] in Hv.
  unfold run_sched, callback_steps, mouse_event_callback, buffer.
  cbn [fold_left sys_step shared cb_reg reads drained heap buf scene_offset vertical_offset].
  rewrite heap_get_set by exact Hv. rewrite heap_set_set.
  destruct (heap_get h b) as [x y]. cbn [pair_get pair_set fst snd].
  repeat f_equal; lia.
Qed.

(** C3 (code defect): draining is two statements.  When the listener's
    callback runs between them, its motion is added to the list that line
    102 then discards: the schedule [lost_sched] applies [dx = 5], and after
    a further complete drain nothing is pending on either thread, yet the
    drains consumed [0]. *)
Theorem drain_race_loses_motion :
  applied_dx lost_sched = 5 /\
  sum_dx (drained (run_sched sys0 lost_sched)) = 0 /\
  reads (run_sched sys0 lost_sched) = [] /\
  cb_reg (run_sched sys0 lost_sched) = None /\
  buffer (shared (run_sched sys0 lost_sched)) = (0, 0).
Proof. vm_compute. repeat split. Qed.

(** * Further properties of [main.py] *)

(** ** Scene generation *)

Lemma setitem_in {A : Type} (l : list A) (i : Z) (x : A) :
  0 <= i < Z.of_nat (List.length l) ->
  exists l', setitem l i x = Ok l' /\ List.length l' = List.length l /\
    forall j d, nth j l' d = if Nat.eqb j (Z.to_nat i) then x else nth j l d.
Proof.
  intros Hi. unfold setitem.
  destruct (Z.ltb_spec i 0); [lia|].
  destruct (Z.ltb_spec i 0); [lia|].
  destruct (Z.leb_spec (Z.of_nat (List.length l)) i); [lia|]. cbn [orb].
  eexists. split; [reflexivity|]. split.
  - rewrite length_app. cbn [List.length]. rewrite length_firstn, length_skipn. lia.
  - intros j d.
    assert (Hf : List.length (firstn (Z.to_nat i) l) = Z.to_nat i) by (rewrite length_firstn; lia).
    destruct (Nat.eqb_spec j (Z.to_nat i)) as [->|Hne].
    + rewrite app_nth2 by lia. rewrite Hf, Nat.sub_diag. reflexivity.
    + destruct (Nat.lt_ge_cases j (Z.to_nat i)).
      * rewrite app_nth1 by lia. rewrite nth_firstn.
        destruct (Nat.ltb_spec j (Z.to_nat i)); [reflexivity|lia].
      * rewrite app_nth2 by lia. rewrite Hf.
        destruct (j - Z.to_nat i)%nat as [|k] eqn:Ek; [lia|]. cbn [nth].
        rewrite nth_skipn. f_equal. lia.
Qed.

Lemma setitem_out {A : Type} (l : list A) (i : Z) (x : A) :
  Z.of_nat (List.length l) <= i -> setitem l i x = Err IndexError.
Proof.
  intros Hi. unfold setitem.
  destruct (Z.ltb_spec i 0); [lia|].
  destruct (Z.leb_spec (Z.of_nat (List.length l)) i); [|lia].
  rewrite orb_true_r. reflexivity.
Qed.

Lemma mark_row_in (row : list ascii) (cols : list Z) :
  (forall c, In c cols -> 0 <= c < Z.of_nat (List.length row)) ->
  exists row', mark_row row cols = Ok row' /\ List.length row' = List.length row /\
    forall j, nth j row' " "%char =
      if existsb (fun c => Nat.eqb j (Z.to_nat c)) cols then "#"%char else nth j row " "%char.
Proof.
  revert row. induction cols as [|c cols IH]; intros row Hc; simpl.
  - exists row. repeat split.
  - destruct (setitem_in row c "#"%char) as (r & Hr & Hlen & Hnth); [apply Hc; left; reflexivity|].
    unfold bind. rewrite Hr.
    destruct (IH r) as (row' & H' & Hlen' & Hnth').
    { intros c' Hin. rewrite Hlen. apply Hc. right. exact Hin. }
    exists row'. split; [exact H'|]. split; [lia|].
    intros j. rewrite Hnth', Hnth.
    destruct (Nat.eqb j (Z.to_nat c)); simpl; [destruct (existsb _ cols)|]; reflexivity.
Qed.

Lemma mark_row_out (row : list ascii) (cols : list Z) :
  (forall c, In c cols -> 0 <= c) ->
  (exists c, In c cols /\ Z.of_nat (List.length row) <= c) ->
  mark_row row cols = Err IndexError.
Proof.
  revert row. induction cols as [|c cols IH]; intros row Hpos (c0 & Hin & Hc0); [destruct Hin|].
  simpl. destruct (Z.lt_ge_cases c (Z.of_nat (List.length row))) as [Hlt|Hge].
  - destruct (setitem_in row c "#"%char) as (r & Hr & Hlen & _).
    { split; [apply Hpos; left; reflexivity|exact Hlt]. }
    unfold bind. rewrite Hr. apply IH.
    + intros c' H'. apply Hpos. right. exact H'.
    + destruct Hin as [<-|Hin]; [lia|]. exists c0. rewrite Hlen. split; assumption.
  - rewrite setitem_out by exact Hge. reflexivity.
Qed.

Lemma marked_cols_spec (j : nat) :
  existsb (fun c => Nat.eqb j (Z.to_nat c)) (map (fun k => 5 + k) (range 10)) =
  (Nat.leb 5 j && Nat.ltb j 15)%bool.
Proof.
  do 15 (destruct j as [|j]; [reflexivity|]). reflexivity.
Qed.

Lemma getitem_repeat {A : Type} (x : A) (n : nat) (i : Z) :
  0 <= i < Z.of_nat n -> getitem (repeat x n) i = Ok x.
Proof.
  intros Hi. unfold getitem.
  destruct (Z.ltb_spec i 0); [lia|]. destruct (Z.ltb_spec i 0); [lia|].
  rewrite nth_error_repeat by lia. reflexivity.
Qed.

Lemma getitem_out {A : Type} (l : list A) (i : Z) :
  Z.of_nat (List.length l) <= i -> getitem l i = Err IndexError.
Proof.
  intros Hi. unfold getitem.
  destruct (Z.ltb_spec i 0); [lia|]. destruct (Z.ltb_spec i 0); [lia|].
  rewrite (proj2 (nth_error_None l (Z.to_nat i))) by lia. reflexivity.
Qed.

Lemma nth_repeat_lt {A : Type} (x d : A) (m r : nat) : (r < m)%nat -> nth r (repeat x m) d = x.
Proof.
  intros Hr. rewrite (nth_indep _ d x) by (rewrite repeat_length; exact Hr). apply nth_repeat.
Qed.

Lemma marked_cols_in (c : Z) :
  In c (map (fun k => 5 + k) (range 10)) -> 5 <= c < 15.
Proof.
  unfold range. intros H. apply in_map_iff in H as (k & <- & Hk).
  apply in_map_iff in Hk as (n & <- & Hn). apply in_seq in Hn. simpl in Hn. lia.
Qed.

Lemma marked_cols_14 : In 14 (map (fun k => 5 + k) (range 10)).
Proof.
  apply in_map_iff. exists 9. split; [reflexivity|].
  unfold range. apply in_map_iff. exists 9%nat. split; [reflexivity|].
  apply in_seq. simpl. lia.
Qed.

Lemma generate_scene_shape (width height : Z) :
  15 <= width -> 11 <= height ->
  exists sc, generate_scene width height = Ok sc /\
    List.length sc = Z.to_nat height /\
    (forall r, (r < Z.to_nat height)%nat -> List.length (nth r sc []) = Z.to_nat width) /\
    (forall r c, (r < Z.to_nat height)%nat -> (c < Z.to_nat width)%nat ->
       nth c (nth r sc []) " "%char =
       if (Nat.eqb r 10 && Nat.leb 5 c && Nat.ltb c 15)%bool then "#"%char else " "%char).
Proof.
  intros Hw Hh. unfold generate_scene.
  rewrite getitem_repeat by lia. unfold bind at 1.
  destruct (mark_row_in (repeat " "%char (Z.to_nat width)) (map (fun k => 5 + k) (range 10)))
    as (row' & Hrow & Hlen' & Hnth').
  { intros c Hc. apply marked_cols_in in Hc. rewrite repeat_length. lia. }
  rewrite Hrow. cbn [bind].
  destruct (setitem_in (repeat (repeat " "%char (Z.to_nat width)) (Z.to_nat height)) 10 row')
    as (sc & Hsc & Hlen & Hnth).
  { rewrite repeat_length. lia. }
  exists sc. split; [exact Hsc|].
  rewrite repeat_length in Hlen, Hlen'. split; [exact Hlen|]. split.
  - intros r Hr. rewrite Hnth. destruct (Nat.eqb r (Z.to_nat 10)); [exact Hlen'|].
    rewrite nth_repeat_lt by exact Hr. apply repeat_length.
  - intros r c Hr Hc. rewrite Hnth. change (Z.to_nat 10) with 10%nat.
    destruct (Nat.eqb_spec r 10) as [->|Hne].
    + cbn [andb]. rewrite Hnth', marked_cols_spec.
      destruct (Nat.leb 5 c && Nat.ltb c 15)%bool; [reflexivity|].
      apply nth_repeat_lt. exact Hc.
    + cbn [andb].
      rewrite nth_repeat_lt by exact Hr. apply nth_repeat_lt. exact Hc.
Qed.

(** X1: for a scene of at least 15 columns and 11 rows, [generate_scene]
    returns [height] rows of [width] cells, all blank except the ten cells
    [5..14] of row 10, which hold ["#"]. *)
Theorem generate_scene_content (width height : Z) :
  15 <= width -> 11 <= height ->
  exists sc, generate_scene width height = Ok sc /\
    List.length sc = Z.to_nat height /\
    (forall r, (r < Z.to_nat height)%nat -> List.length (nth r sc []) = Z.to_nat width) /\
    (forall r c, (r < Z.to_nat height)%nat -> (c < Z.to_nat width)%nat ->
       nth c (nth r sc []) " "%char =
       if (Nat.eqb r 10 && Nat.leb 5 c && Nat.ltb c 15)%bool then "#"%char else " "%char).
Proof. exact (generate_scene_shape width height). Qed.

Lemma generate_scene_content_witness :
  exists sc, generate_scene 16 12 = Ok sc /\ List.length sc = Z.to_nat 12 /\
    (forall r, (r < Z.to_nat 12)%nat -> List.length (nth r sc []) = Z.to_nat 16) /\
    (forall r c, (r < Z.to_nat 12)%nat -> (c < Z.to_nat 16)%nat ->
       nth c (nth r sc []) " "%char =
       if (Nat.eqb r 10 && Nat.leb 5 c && Nat.ltb c 15)%bool then "#"%char else " "%char).
Proof. apply generate_scene_content; lia. Defined.

Lemma generate_scene_small_err (width height : Z) :
  0 <= width -> 0 <= height -> height <= 10 \/ width <= 14 ->
  generate_scene width height = Err IndexError.
Proof.
  intros Hw Hh Hsmall. unfold generate_scene.
  destruct (Z.le_gt_cases height 10) as [Hh10|Hh10].
  - rewrite getitem_out by (rewrite repeat_length; lia). reflexivity.
  - rewrite getitem_repeat by lia. cbn [bind].
    rewrite mark_row_out; [reflexivity| |].
    + intros c Hc. apply marked_cols_in in Hc. lia.
    + exists 14. split; [exact marked_cols_14|]. rewrite repeat_length. lia.
Qed.

(** X2: [generate_scene] raises [IndexError] when the scene has at most 10
    rows (there is no row 10) or at most 14 columns (column 14 is out of
    range). *)
Theorem generate_scene_too_small (width height : Z) :
  0 <= width -> 0 <= height -> height <= 10 \/ width <= 14 ->
  generate_scene width height = Err IndexError.
Proof. exact (generate_scene_small_err width height). Qed.

Lemma generate_scene_too_small_witness :
  generate_scene 12 30 = Err IndexError.
Proof. apply generate_scene_too_small; lia. Defined.

Lemma make_env_wf (my mx : Z) :
  4 <= my -> 4 <= mx ->
  exists e, make_env my mx = Ok e /\ wf_env e /\ max_y e = my /\ max_x e = mx /\
    (forall r, (r < List.length (scene e))%nat ->
       Z.of_nat (List.length (nth r (scene e) [])) = scene_width e).
Proof.
  intros Hy Hx. unfold make_env.
  destruct (generate_scene_shape (mx * SCENE_WIDTH_MULTIPLIER) (my * SCENE_HEIGHT_MULTIPLIER))
    as (sc & Hsc & Hlen & Hrows & _); unfold SCENE_WIDTH_MULTIPLIER, SCENE_HEIGHT_MULTIPLIER in *; try lia.
  rewrite Hsc. cbn [bind]. eexists. split; [reflexivity|].
  unfold wf_env, SCENE_WIDTH_MULTIPLIER, SCENE_HEIGHT_MULTIPLIER. cbn.
  split; [lia|]. split; [reflexivity|]. split; [reflexivity|].
  intros r Hr. rewrite Hlen in Hr. rewrite Hrows by exact Hr. lia.
Qed.




(** X4: on a terminal of at least 4x4 cells, with a display that may refuse
    writes only, the main thread can stop only on an [OverflowError] or a
    [ValueError] of the camera arithmetic, never on [curses.error] or
    [IndexError]; and as long as the mouse does not move, it keeps running,
    with or without the event tap. *)
Theorem program_runs_on_large_terminal (disp : display) (tap_created : bool) (my mx : Z)
        (inputs : list (list (Z * Z))) :
  4 <= my -> 4 <= mx -> (forall c, disp c = true -> is_write c = true) ->
  (forall ex, main_thread (program disp tap_created my mx inputs) = Err ex -> arith_error ex) /\
  (Forall (fun m => m = []) inputs ->
   aborted (program disp tap_created my mx inputs) = false /\
   exists st, main_thread (program disp tap_created my mx inputs) = Ok st).
Proof.
  intros Hy Hx Hdisp.
  destruct (make_env_wf my mx Hy Hx) as (e & He & Hwf & _).
  unfold program. cbn [main_thread aborted].
  generalize (match spawn (start_mouse_listener tap_created) with
              | ThreadRunning => true | ThreadDied _ => false end) as listening.
  intros listening.
  rewrite wrapper_setup by exact Hdisp. rewrite He. cbn [bind]. split.
  - intros ex. exact (run_frames_err disp e listening inputs initial_state ex Hwf Hdisp).
  - intros Hnil.
    assert (Hdel : forall m s, In m inputs -> deliver listening m s = s).
    { intros m s Hin. rewrite Forall_forall in Hnil. rewrite (Hnil m Hin).
      unfold deliver. destruct listening; reflexivity. }
    destruct (run_frames_frozen disp e listening inputs initial_state Hwf Hdisp Hdel
                eq_refl eq_refl eq_refl) as (st & Hrun & _).
    rewrite Hrun. split; [reflexivity|]. exists st. reflexivity.
Qed.

Lemma program_runs_on_large_terminal_witness :
  4 <= 4 /\ (forall c, failing_display c = true -> is_write c = true) /\
  aborted (program failing_display true 4 4 [[]; []; []]) = false /\
  (forall ex, main_thread (program failing_display true 4 4 [[(1, 2)]; []; [(-3, 0)]]) = Err ex ->
              arith_error ex).
Proof.
  split; [lia|]. split; [exact failing_display_writes|]. split.
  - refine (proj1 (proj2 (program_runs_on_large_terminal failing_display true 4 4 [[]; []; []]
                            ltac:(lia) ltac:(lia) failing_display_writes) _)).
    repeat constructor.
  - exact (proj1 (program_runs_on_large_terminal failing_display true 4 4 _
                    ltac:(lia) ltac:(lia) failing_display_writes)).
Defined.
(** ** The callback and the buffer *)

Lemma length_heap_set (h : list (Z * Z)) (p : nat) (v : Z * Z) :
  List.length (heap_set h p v) = List.length h.
Proof.
  revert p. induction h as [|x h IH]; intros p; [reflexivity|].
  destruct p; simpl; [reflexivity|]. rewrite IH. reflexivity.
Qed.

Lemma callback_buffer (dx dy : Z) (st : state) :
  buf_valid st ->
  buffer (mouse_event_callback kCGEventMouseMoved dx dy st) =
    (fst (buffer st) + dx, snd (buffer st) - dy) /\
  buf_valid (mouse_event_callback kCGEventMouseMoved dx dy st).
Proof.
  intros Hv. unfold mouse_event_callback.
  destruct (buffer st) as [x y] eqn:Hb. unfold buffer, buf_valid in *. cbn [heap buf fst snd].
  split.
  - apply heap_get_set. exact Hv.
  - rewrite length_heap_set. exact Hv.
Qed.

Lemma deliver_moves (m : list (Z * Z)) (st : state) :
  buf_valid st ->
  buffer (deliver true m st) = (fst (buffer st) + moves_dx m, snd (buffer st) - moves_dy m) /\
  buf_valid (deliver true m st) /\
  scene_offset (deliver true m st) = scene_offset st /\
  vertical_offset (deliver true m st) = vertical_offset st.
Proof.
  unfold deliver. revert st. induction m as [|[dx dy] m IH]; intros st Hv; cbn [fold_left].
  - unfold moves_dx, moves_dy. cbn [fold_right]. destruct (buffer st) as [x y]. cbn [fst snd].
    rewrite Z.add_0_r, Z.sub_0_r. repeat split; assumption.
  - destruct (callback_buffer dx dy st Hv) as [Hb Hv'].
    destruct (IH _ Hv') as (Hb2 & Hv2 & Ho & Hvo).
    rewrite Hb2, Hb, Ho, Hvo, callback_scene_offset, callback_vertical_offset.
    cbn [fst snd]. unfold moves_dx, moves_dy. cbn [fold_right fst snd].
    repeat split; try assumption; f_equal; lia.
Qed.

(** X5: the callbacks delivered between two frames add up: after mouse moves
    [(dx_1, dy_1) ... (dx_n, dy_n)] the buffer holds its previous value plus
    [(sum dx_i, - sum dy_i)] (the y axis is inverted), and the camera
    offsets are untouched. *)
Theorem callbacks_accumulate (m : list (Z * Z)) (st : state) :
  buf_valid st ->
  buffer (deliver true m st) = (fst (buffer st) + moves_dx m, snd (buffer st) - moves_dy m) /\
  scene_offset (deliver true m st) = scene_offset st /\
  vertical_offset (deliver true m st) = vertical_offset st.
Proof.
  intros Hv. destruct (deliver_moves m st Hv) as (Hb & _ & Ho & Hvo). repeat split; assumption.
Qed.

Lemma initial_state_valid : buf_valid initial_state.
Proof. unfold buf_valid. simpl. lia. Qed.

Lemma callbacks_accumulate_witness :
  buffer (deliver true [(3, 4); (-1, 2)] initial_state) =
    (fst (buffer initial_state) + moves_dx [(3, 4); (-1, 2)],
     snd (buffer initial_state) - moves_dy [(3, 4); (-1, 2)]) /\
  scene_offset (deliver true [(3, 4); (-1, 2)] initial_state) = scene_offset initial_state /\
  vertical_offset (deliver true [(3, 4); (-1, 2)] initial_state) = vertical_offset initial_state.
Proof. exact (callbacks_accumulate _ _ initial_state_valid). Defined.

Lemma getitem_nth {A : Type} (l : list A) (i : Z) (d : A) :
  0 <= i < Z.of_nat (List.length l) -> getitem l i = Ok (nth (Z.to_nat i) l d).
Proof.
  intros Hi. unfold getitem.
  destruct (Z.ltb_spec i 0); [lia|]. destruct (Z.ltb_spec i 0); [lia|].
  rewrite (nth_error_nth' l d) by lia. reflexivity.
Qed.

Lemma length_circular_window (srow : list ascii) (W s w : Z) :
  List.length (circular_window srow W s w) = Z.to_nat w.
Proof. unfold circular_window. rewrite length_map, length_seq. reflexivity. Qed.

Lemma slice_whole {A : Type} (l : list A) : slice l 0 (Z.of_nat (List.length l)) = l.
Proof.
  unfold slice, slice_bound.
  destruct (Z.ltb_spec 0 0); [lia|].
  destruct (Z.ltb_spec (Z.of_nat (List.length l)) 0); [lia|].
  replace (Z.min 0 (Z.of_nat (List.length l))) with 0 by lia.
  rewrite Z.min_id, Z.sub_0_r, Nat2Z.id. cbn [skipn Z.to_nat]. apply firstn_all.
Qed.

Lemma written_lines_app (a b : trace) : written_lines (a ++ b) = written_lines a ++ written_lines b.
Proof. induction a as [|[[] ?] a IH]; cbn [app written_lines]; rewrite ?IH; reflexivity. Qed.

(** Each row written by the loop is the circular window of the scene row
    it reads, when the anchor lies in [[0, W)] and the viewport is at most
    one scene wide. *)
Lemma render_rows_lines (disp : display) (e : env) (sx sy : Z) (rows : list Z) (t : trace) :
  0 < scene_height e -> List.length (scene e) = Z.to_nat (scene_height e) ->
  (forall r, (r < List.length (scene e))%nat ->
     Z.of_nat (List.length (nth r (scene e) [])) = scene_width e) ->
  0 <= sx < scene_width e -> 0 < max_x e <= scene_width e ->
  render_rows disp e sx sy rows = Ok t ->
  written_lines t =
    map (fun r => circular_window (nth (Z.to_nat ((sy + r) mod scene_height e)) (scene e) [])
                                  (scene_width e) sx (max_x e)) rows.
Proof.
  intros HH Hlen Hrows Hsx Hmx. revert t.
  induction rows as [|r rows IH]; intros t Ht; cbn [render_rows] in Ht.
  - apply Ok_inj in Ht. subst t. reflexivity.
  - unfold render_row, py_mod in Ht.
    destruct (Z.eqb_spec (scene_height e) 0) as [|_]; [lia|].
    pose proof (Z.mod_pos_bound (sy + r) (scene_height e) HH) as Hy.
    cbn [bind] in Ht.
    rewrite (getitem_nth (scene e) ((sy + r) mod scene_height e) []) in Ht by lia.
    cbn [bind] in Ht.
    destruct (render_rows disp e sx sy rows) as [b|] eqn:Hb; [|discriminate].
    apply Ok_inj in Ht. subst t. cbn [guarded app written_lines map].
    rewrite (IH b eq_refl). f_equal.
    set (srow := nth (Z.to_nat ((sy + r) mod scene_height e)) (scene e) []).
    assert (Hs : Z.of_nat (List.length srow) = scene_width e) by (apply Hrows; lia).
    rewrite (extract_line_circular srow (scene_width e) Hs) by lia.
    rewrite <- (Z2Nat.id (max_x e)) at 2 by lia.
    rewrite <- (length_circular_window srow (scene_width e) sx (max_x e)).
    apply slice_whole.
Qed.


(** The lines a frame writes, in the environment [render_scene] builds:
    the circular windows at the anchors [int(offset) % size]. *)
Lemma frame_written_lines (disp : display) (my mx : Z) (e : env) (st st' : state) (t : trace) :
  4 <= my -> 4 <= mx -> make_env my mx = Ok e ->
  frame disp e st = Ok (st', t) ->
  written_lines t =
    map (fun r => circular_window
                    (nth (Z.to_nat ((py_int (float_to_Q (vertical_offset st')) + r)
                                    mod scene_height e)) (scene e) [])
                    (scene_width e) (py_int (float_to_Q (scene_offset st'))) (max_x e))
        (range (max_y e)).
Proof.
  intros Hy Hx He Hf.
  destruct (make_env_wf my mx Hy Hx) as (e' & He' & Hwf & _ & _ & Hrows).
  rewrite He in He'. apply Ok_inj in He'. subst e'.
  destruct Hwf as (Hmx & Hmy & Hw & Hh & Hlen).
  unfold SCENE_WIDTH_MULTIPLIER in Hw. unfold SCENE_HEIGHT_MULTIPLIER in Hh.
  assert (HW : 0 < scene_width e) by lia.
  assert (HH : 0 < scene_height e) by lia.
  destruct (frame_inv _ _ _ _ _ Hf) as (sx & sy & t1 & Hc & Ht1 & ->).
  destruct (camera_inv _ _ _ _ _ Hc) as (_ & Hsx & Hsy).
  apply (anchor_ok_inv _ _ _ HW) in Hsx. apply (anchor_ok_inv _ _ _ HH) in Hsy.
  subst sx sy.
  cbn [written_lines]. rewrite written_lines_app. unfold crosshair.
  cbn [written_lines]. rewrite app_nil_r.
  pose proof (Z.mod_pos_bound (py_int (float_to_Q (scene_offset st'))) (scene_width e) HW) as Hsx.
  rewrite (render_rows_lines _ _ _ _ _ _ HH Hlen Hrows Hsx ltac:(lia) Ht1).
  apply map_ext. intros r.
  rewrite Z.add_mod_idemp_l by lia.
  apply circular_window_mod. exact HW.
Qed.



(** X7: in the environment [render_scene] builds, the text a frame writes
    on row [r] is the row [int(vertical_offset) + r] (modulo the scene
    height) of the scene, read circularly over [max_x] cells from column
    [int(scene_offset)] (modulo the scene width), with the offsets the frame
    has just updated. *)
Theorem frame_lines (disp : display) (my mx : Z) (e : env) (st st' : state) (t : trace) :
  4 <= my -> 4 <= mx -> make_env my mx = Ok e ->
  frame disp e st = Ok (st', t) ->
  written_lines t =
    map (fun r => circular_window
                    (nth (Z.to_nat ((py_int (float_to_Q (vertical_offset st')) + r)
                                    mod scene_height e)) (scene e) [])
                    (scene_width e) (py_int (float_to_Q (scene_offset st'))) (max_x e))
        (range (max_y e)).
Proof. exact (frame_written_lines disp my mx e st st' t). Qed.

Lemma frame_lines_witness :
  exists st' t, make_env 4 4 = Ok env4 /\ frame quiet_display env4 cam45 = Ok (st', t) /\
    written_lines t =
      map (fun r => circular_window
                      (nth (Z.to_nat ((py_int (float_to_Q (vertical_offset st')) + r)
                                      mod scene_height env4)) (scene env4) [])
                      (scene_width env4) (py_int (float_to_Q (scene_offset st'))) (max_x env4))
          (range (max_y env4)).
Proof.
  assert (He : make_env 4 4 = Ok env4) by (vm_compute; reflexivity).
  destruct (frame quiet_display env4 cam45) as [[st' t]|] eqn:H.
  - exists st', t. split; [exact He|]. split; [reflexivity|].
    refine (frame_lines quiet_display 4 4 env4 cam45 st' t _ _ He H); lia.
  - vm_compute in H. discriminate.
Defined.

(** X9: [clear()] and [refresh()] are called outside any [try]: when the
    terminal raises [curses.error] on [clear()], the next frame raises it
    out of [render_scene], whatever the camera state and the mouse input;
    when it raises on [refresh()], so does every frame whose camera update
    succeeds. *)
Theorem curses_error_escapes (disp : display) (e : env) (listening : bool)
        (m : list (Z * Z)) (inputs : list (list (Z * Z))) (st : state) :
  wf_env e ->
  (disp Clear = true -> run_frames disp e listening (m :: inputs) st = Err CursesError) /\
  (disp Refresh = true -> forall c, camera e (deliver listening m st) = Ok c ->
     run_frames disp e listening (m :: inputs) st = Err CursesError).
Proof.
  intros (Hx & Hy & Hw & Hh & Hlen).
  assert (HH : 0 < scene_height e) by (rewrite Hh; unfold SCENE_HEIGHT_MULTIPLIER; lia).
  split.
  - intros Hc. cbn [run_frames]. unfold frame, unguarded. rewrite Hc. reflexivity.
  - intros Hr [st1 [sx sy]] Hc. cbn [run_frames].
    unfold frame, unguarded. destruct (disp Clear); [reflexivity|].
    destruct (render_rows_ok disp e sx sy (range (max_y e)) HH Hlen) as (t1 & Ht1 & _).
    cbn [bind]. rewrite Hc. cbn [bind]. rewrite Ht1. cbn [bind]. rewrite Hr. reflexivity.
Qed.

Lemma curses_error_escapes_witness :
  run_frames (fun c => match c with Clear => true | _ => false end) env4 true
             [[(1, 1)]; []] cam45 = Err CursesError /\
  run_frames (fun c => match c with Refresh => true | _ => false end) env4 true
             [[(1, 1)]; []] cam45 = Err CursesError.
Proof.
  split.
  - exact (proj1 (curses_error_escapes _ env4 true [(1, 1)] [[]] cam45 wf_env4) eq_refl).
  - destruct (camera env4 (deliver true [(1, 1)] cam45)) as [c|] eqn:Hc;
      [|vm_compute in Hc; discriminate].
    exact (proj2 (curses_error_escapes _ env4 true [(1, 1)] [[]] cam45 wf_env4) eq_refl c Hc).
Defined.
